(** * Diff-discrepancy miner: a shallow embedding of [code_1.py]

    The script mines commits, asks git for the diff of every modified file
    under two diff algorithms, normalises both texts, compares them, writes
    one CSV row per file and finally counts the discrepant rows per file
    category.

    Python [str] values are sequences of Unicode code points; they are
    modelled as lists of code points ([N]).  The external collaborators (the
    git client and the commit-mining library) are Section variables.  The
    CSV file is the list of rows handed to the writer; the progress lines
    the mining loop prints are left out, the calls of the reporting part
    are kept as a list of events. *)

From Stdlib Require Import List NArith ZArith Bool Lia String Ascii.
From Stdlib Require Import Sorting.Sorted Sorting.Permutation.
From Stdlib Require Import Numbers.DecimalString.
Import ListNotations.

Set Implicit Arguments.

(* ================================================================== *)
(** ** Python strings and the [str] methods the script calls *)
(* ================================================================== *)

Module PyStr.

Definition char := N.
Definition str := list char.

(** An ASCII literal of the source, as code points. *)
Definition lit (s : string) : str := map N_of_ascii (list_ascii_of_string s).

Definition LF : char := 10%N.
Definition CR : char := 13%N.

(** The code points at which [str.splitlines] cuts:
    LF, VT, FF, CR, FS, GS, RS, NEL, LINE SEPARATOR, PARAGRAPH SEPARATOR. *)
Definition is_linebreak (c : char) : bool :=
  ((10 <=? c) && (c <=? 13) || (28 <=? c) && (c <=? 30)
   || (c =? 133) || (c =? 8232) || (c =? 8233))%N.

(** The code points [str.strip] removes (Unicode white space). *)
Definition is_space (c : char) : bool :=
  ((9 <=? c) && (c <=? 13) || (28 <=? c) && (c <=? 32)
   || (c =? 133) || (c =? 160) || (c =? 5760)
   || (8192 <=? c) && (c <=? 8202)
   || (c =? 8232) || (c =? 8233) || (c =? 8239) || (c =? 8287)
   || (c =? 12288))%N.

Fixpoint str_eqb (a b : str) : bool :=
  match a, b with
  | [], [] => true
  | x :: a', y :: b' => (x =? y)%N && str_eqb a' b'
  | _, _ => false
  end.

(** [s.splitlines()]: lines without their terminators; CR LF is one
    terminator; a terminator at the very end opens no further line. *)
Fixpoint splitlines (s : str) : list str :=
  match s with
  | [] => []
  | c :: s' =>
      if is_linebreak c then
        match s' with
        | [] => [[]]
        | c' :: s'' =>
            if ((c =? CR) && (c' =? LF))%N
            then [] :: splitlines s''
            else [] :: splitlines s'
        end
      else
        match splitlines s' with
        | [] => [[c]]
        | l :: ls => (c :: l) :: ls
        end
  end.

Fixpoint lstrip (s : str) : str :=
  match s with
  | [] => []
  | c :: s' => if is_space c then lstrip s' else s
  end.

Definition rstrip (s : str) : str := rev (lstrip (rev s)).

(** [s.strip()] *)
Definition strip (s : str) : str := rstrip (lstrip s).

(** [s.startswith(prefix)] *)
Fixpoint startswith (s prefix : str) {struct prefix} : bool :=
  match prefix with
  | [] => true
  | p :: prefix' =>
      match s with
      | [] => false
      | c :: s' => (c =? p)%N && startswith s' prefix'
      end
  end.

(** [s.endswith(suffix)] *)
Definition endswith (s suffix : str) : bool :=
  startswith (rev s) (rev suffix).

(** [sep.join(parts)] *)
Fixpoint join (sep : str) (parts : list str) : str :=
  match parts with
  | [] => []
  | [p] => p
  | p :: rest => p ++ sep ++ join sep rest
  end.

(** [str(n)] for a non-negative [int]. *)
Definition str_of_nat (n : nat) : str :=
  lit (NilEmpty.string_of_uint (Nat.to_uint n)).

End PyStr.

Import PyStr.

(* ================================================================== *)
(** ** The diff normaliser (source lines 26-32) *)
(* ================================================================== *)

(** A line the filter drops: it starts with "index", "---" or "+++". *)
Definition is_header (line : str) : bool :=
  startswith line (lit "index") || startswith line (lit "---")
  || startswith line (lit "+++").

(** The comprehension's filter as the source writes it. *)
Definition keep (line : str) : bool :=
  negb (startswith line (lit "index")) && negb (startswith line (lit "---"))
  && negb (startswith line (lit "+++")).

(** The list comprehension bound to [lines]. *)
Definition normalize_lines (diff_text : str) : list str :=
  map strip (filter keep (splitlines diff_text)).

Definition normalize_diff (diff_text : str) : str :=
  join [LF] (normalize_lines diff_text).

(** The verdict expression of source lines 95-96. *)
Definition discrepancy_cond (norm_myers norm_hist : str) : bool :=
  negb (str_eqb norm_myers norm_hist)
  || negb (List.length (splitlines norm_myers) =? List.length (splitlines norm_hist))%nat.

Definition discrepancy (norm_myers norm_hist : str) : str :=
  if discrepancy_cond norm_myers norm_hist then lit "Yes" else lit "No".

(* ================================================================== *)
(** ** The mining pipeline (source lines 37-101) *)
(* ================================================================== *)

Record ModifiedFile := {
  old_path : option str;          (* [None] for an added file *)
  new_path : option str           (* [None] for a deleted file *)
}.

Record Commit := {
  hash : str;
  parents : list str;
  msg : str;
  modified_files : list ModifiedFile
}.

(** One data row handed to [writer.writerow]. *)
Record Row := {
  repo : str;
  old_file_path : str;
  new_file_path : str;
  commit_SHA : str;
  parent_commit_SHA : str;
  commit_message : str;
  diff_myers : str;
  diff_hist : str;
  Discrepancy : str
}.

Definition csv_header : list str :=
  [lit "repo"; lit "old_file_path"; lit "new_file_path"; lit "commit_SHA";
   lit "parent_commit_SHA"; lit "commit_message";
   lit "diff_myers"; lit "diff_hist"; lit "Discrepancy"].

Definition row_fields (r : Row) : list str :=
  [repo r; old_file_path r; new_file_path r; commit_SHA r;
   parent_commit_SHA r; commit_message r; diff_myers r; diff_hist r;
   Discrepancy r].

Definition BASE_DIR : str := lit "repos".

(** [os.path.join(a, b)] (POSIX). *)
Definition os_path_join (a b : str) : str :=
  if startswith b (lit "/") then b
  else if match a with [] => true | _ => endswith a (lit "/") end then a ++ b
  else a ++ lit "/" ++ b.

(** The [repos] dictionary, in insertion order: name, (url, commit cap). *)
Definition repos_t := list (str * (str * Z)).

Definition repos : repos_t :=
  [ (lit "MaxKB", (lit "https://github.com/1Panel-dev/MaxKB.git", 100%Z));
    (lit "police-brutality",
       (lit "https://github.com/2020pb/police-brutality.git", 100%Z));
    (lit "manim", (lit "https://github.com/3b1b/manim.git", 300%Z)) ].

Section Pipeline.

(** [run_git_diff repo_path parent commit_hash file_path algo]: the
    standard output of the git child process. *)
Variable run_git_diff : str -> str -> str -> str -> str -> str.

(** [Repository(repo_path).traverse_commits()], a finite sequence. *)
Variable traverse_commits : str -> list Commit.

(** Body of [for mod in commit.modified_files], for one [mod]; [w] is the
    list of rows written so far. *)
Definition process_mod (name repo_path : str) (commit : Commit)
    (w : list Row) (mod_ : ModifiedFile) : list Row :=
  match old_path mod_, new_path mod_ with
  | Some old_p, Some new_p =>
      match parents commit with
      | [] => w                                    (* continue *)
      | parent :: _ =>
          let diff_myers :=
            run_git_diff repo_path parent (hash commit) new_p (lit "myers") in
          let diff_hist :=
            run_git_diff repo_path parent (hash commit) new_p
                         (lit "histogram") in
          let norm_myers := normalize_diff diff_myers in
          let norm_hist := normalize_diff diff_hist in
          w ++ [ {| repo := name;
                    old_file_path := old_p;
                    new_file_path := new_p;
                    commit_SHA := hash commit;
                    parent_commit_SHA := parent;
                    commit_message := strip (msg commit);
                    diff_myers := diff_myers;
                    diff_hist := diff_hist;
                    Discrepancy := discrepancy norm_myers norm_hist |} ]
      end
  | _, _ => w                                      (* continue *)
  end.

Definition process_commit (name repo_path : str) (w : list Row)
    (commit : Commit) : list Row :=
  fold_left (process_mod name repo_path commit) (modified_files commit) w.

(** The loop over the traversal, with its counter and its [break]. *)
Fixpoint commits_loop (name repo_path : str) (max_commits : Z)
    (commits : list Commit) (commit_count : Z) (w : list Row)
    : Z * list Row :=
  match commits with
  | [] => (commit_count, w)
  | commit :: rest =>
      if (commit_count >=? max_commits)%Z then (commit_count, w)   (* break *)
      else commits_loop name repo_path max_commits rest
             (commit_count + 1)%Z (process_commit name repo_path w commit)
  end.

(** Body of [for name, (url, max_commits) in repos.items()]. *)
Definition process_repo (w : list Row) (entry : str * (str * Z))
    : list Row :=
  let '(name, (_, max_commits)) := entry in
  let repo_path := os_path_join BASE_DIR name in
  snd (commits_loop name repo_path max_commits
         (traverse_commits repo_path) 0%Z w).

(** The data rows of the CSV file once the [with] block is left. *)
Definition generate_dataset (rs : repos_t) : list Row :=
  fold_left process_repo rs [].

End Pipeline.

(* ================================================================== *)
(** ** Statistics and plot (source lines 108-138) *)
(* ================================================================== *)

(** A row of the data frame: the two columns the script reads; [None] is
    a missing cell (NaN). *)
Record DfRow := {
  df_new_file_path : option str;
  df_Discrepancy : option str
}.

Definition cell_is (v : str) (c : option str) : bool :=
  match c with Some s => str_eqb s v | None => false end.

(** [series.str.endswith(suffixes, na=False)] on one cell. *)
Definition cell_endswith (suffixes : list str) (c : option str) : bool :=
  match c with
  | Some s => existsb (endswith s) suffixes
  | None => false
  end.

(** Lower-casing as the regex engine applies it to a subject character,
    on the code points whose image can equal a letter of the three
    patterns: A-Z, U+0130 and U+212A. *)
Definition sre_lower (c : char) : char :=
  (if (65 <=? c) && (c <=? 90) then c + 32
   else if c =? 304 then 105
   else if c =? 8490 then 107
   else c)%N.

(** One pattern letter against one subject character under IGNORECASE:
    the lowered subject is the lowered letter or one of its listed
    equivalents (dotless i for i, long s for s). *)
Definition ci_char (p c : char) : bool :=
  let lo := sre_lower p in
  let c' := sre_lower c in
  ((c' =? lo) || (lo =? 105) && (c' =? 305) || (lo =? 115) && (c' =? 383))%N.

Fixpoint ci_prefix (s pat : str) {struct pat} : bool :=
  match pat with
  | [] => true
  | p :: pat' =>
      match s with
      | [] => false
      | c :: s' => ci_char p c && ci_prefix s' pat'
      end
  end.

Fixpoint ci_contains (s pat : str) : bool :=
  ci_prefix s pat
  || match s with [] => false | _ :: s' => ci_contains s' pat end.

(** [series.str.contains(pat, case=False, na=False)] on one cell, for a
    pattern made of letters. *)
Definition cell_contains (pat : str) (c : option str) : bool :=
  match c with Some s => ci_contains s pat | None => false end.

Definition source_suffixes : list str :=
  [lit ".py"; lit ".cpp"; lit ".java"; lit ".js"; lit ".ts"; lit ".c"].

Definition is_source (r : DfRow) : bool :=
  cell_endswith source_suffixes (df_new_file_path r).
Definition is_test (r : DfRow) : bool :=
  cell_contains (lit "test") (df_new_file_path r).
Definition is_readme (r : DfRow) : bool :=
  cell_contains (lit "README") (df_new_file_path r).
Definition is_license (r : DfRow) : bool :=
  cell_contains (lit "LICENSE") (df_new_file_path r).

Definition mismatches (df : list DfRow) : list DfRow :=
  filter (fun r => cell_is (lit "Yes") (df_Discrepancy r)) df.

(** The [categories] dictionary, in insertion order. *)
Definition categories (df : list DfRow) : list (str * list DfRow) :=
  let m := mismatches df in
  [ (lit "Source Code", filter is_source m);
    (lit "Test Code", filter is_test m);
    (lit "README", filter is_readme m);
    (lit "LICENSE", filter is_license m) ].

Definition counts (df : list DfRow) : list (str * nat) :=
  map (fun cd => (fst cd, List.length (snd cd))) (categories df).

(** [any(counts.values())] *)
Definition any_counts (df : list DfRow) : bool :=
  existsb (fun cn => negb (snd cn =? 0)%nat) (counts df).

(** What the reporting part does to the outside world, in order. *)
Inductive Event :=
| print (s : str)
| plt_bar (xs : list str) (heights : list nat)
| plt_xlabel (s : str)
| plt_ylabel (s : str)
| plt_title (s : str)
| plt_tight_layout
| plt_savefig (path : str)
| plt_show.

Definition chart_path : str := lit "mismatch_statistics.png".

(** The text of the last [print]; the dash of the source file is stored
    as the three code points U+00E2 U+20AC U+201D. *)
Definition skipped_message : str :=
  [LF] ++ lit " No mismatches found " ++ [226; 8364; 8221]%N
       ++ lit " plot skipped.".

Definition report (df : list DfRow) : list Event :=
  [print ([LF] ++ lit " Generating mismatch statistics...");
   print ([LF] ++ lit "Mismatch counts:")]
  ++ map (fun cn => print (fst cn ++ lit ": " ++ str_of_nat (snd cn)))
         (counts df)
  ++ if any_counts df then
       [plt_bar (map fst (counts df)) (map snd (counts df));
        plt_xlabel (lit "File Type");
        plt_ylabel (lit "Number of Mismatches");
        plt_title (lit "Mismatch Statistics by File Type");
        plt_tight_layout;
        plt_savefig chart_path;
        plt_show;
        print ([LF] ++ lit " Plot saved as mismatch_statistics.png")]
     else
       [print skipped_message].

(* ================================================================== *)
(** ** Vocabulary of the statements *)
(* ================================================================== *)

(** A line holds no character at which [splitlines] would cut. *)
Definition no_linebreak (l : str) : Prop :=
  Forall (fun c => is_linebreak c = false) l.

(** A string that is empty or starts with a character [strip] keeps. *)
Definition head_kept (s : str) : Prop :=
  match s with [] => True | c :: _ => is_space c = false end.

(** The lines [splitlines] finds in the join of [ls]: those of [ls], short
    of an empty last one. *)
Definition resplit (ls : list str) : list str :=
  match ls with
  | [] => []
  | _ :: _ => if str_eqb (last ls []) [] then removelast ls else ls
  end.

(** The positions of the elements of [l] that pass [f], in increasing
    order. *)
Fixpoint positions {A} (f : A -> bool) (l : list A) : list nat :=
  match l with
  | [] => []
  | x :: r =>
      if f x then 0 :: map S (positions f r) else map S (positions f r)
  end.

Section PipelineSpec.

Variable run_git_diff : str -> str -> str -> str -> str -> str.
Variable traverse_commits : str -> list Commit.

(** The commit has a parent and the modification has both paths. *)
Definition qualifies (commit : Commit) (m : ModifiedFile) : bool :=
  match old_path m, new_path m, parents commit with
  | Some _, Some _, _ :: _ => true
  | _, _, _ => false
  end.

(** The rows one modification adds to the file. *)
Definition mod_rows (name repo_path : str) (commit : Commit)
    (m : ModifiedFile) : list Row :=
  process_mod run_git_diff name repo_path commit [] m.

Definition commit_rows (name repo_path : str) (commit : Commit)
    : list Row :=
  flat_map (mod_rows name repo_path commit) (modified_files commit).

(** The commits of a repository that come before the cap. *)
Definition processed_commits (entry : str * (str * Z)) : list Commit :=
  firstn (Z.to_nat (snd (snd entry)))
         (traverse_commits (os_path_join BASE_DIR (fst entry))).

Definition repo_rows (entry : str * (str * Z)) : list Row :=
  flat_map (commit_rows (fst entry) (os_path_join BASE_DIR (fst entry)))
           (processed_commits entry).

(** The (commit, modified file) pairs that qualify, in the order the
    loops meet them, each with the name of its repository. *)
Definition qualifying_pairs (rs : repos_t)
    : list (str * Commit * ModifiedFile) :=
  flat_map (fun e =>
    flat_map (fun c =>
                map (fun m => (fst e, c, m))
                    (filter (qualifies c) (modified_files c)))
             (processed_commits e)) rs.

(** Row [r] is the row of the pair [p]. *)
Definition row_matches (p : str * Commit * ModifiedFile) (r : Row) : Prop :=
  let '(name, c, m) := p in
  repo r = name
  /\ commit_SHA r = hash c
  /\ old_path m = Some (old_file_path r)
  /\ new_path m = Some (new_file_path r)
  /\ head (parents c) = Some (parent_commit_SHA r).

End PipelineSpec.

(** *** A small synthetic history

    One repository; a root commit followed by a commit that modifies
    [a.py], adds [b.py] and deletes [c.py]. *)

Definition ex_text_xy : str := lit "-x" ++ [LF] ++ lit "+y".
Definition ex_text_xyz : str := lit "-x" ++ [LF] ++ lit "+y" ++ [LF] ++ lit "+z".

(** A git client whose two algorithms disagree. *)
Definition ex_git_differs (repo_path parent commit_hash file_path algo : str)
    : str :=
  if str_eqb algo (lit "myers") then ex_text_xy else ex_text_xyz.

(** A git client whose two algorithms agree. *)
Definition ex_git_agrees (repo_path parent commit_hash file_path algo : str)
    : str := ex_text_xy.

Definition ex_mod_a : ModifiedFile :=
  {| old_path := Some (lit "a.py"); new_path := Some (lit "a.py") |}.
Definition ex_mod_added : ModifiedFile :=
  {| old_path := None; new_path := Some (lit "b.py") |}.
Definition ex_mod_deleted : ModifiedFile :=
  {| old_path := Some (lit "c.py"); new_path := None |}.

Definition ex_root : Commit :=
  {| hash := lit "c0"; parents := []; msg := lit "initial";
     modified_files := [ex_mod_a] |}.
Definition ex_commit : Commit :=
  {| hash := lit "c1"; parents := [lit "c0"]; msg := lit " edit " ++ [LF];
     modified_files := [ex_mod_a; ex_mod_added; ex_mod_deleted] |}.

Definition ex_traverse (repo_path : str) : list Commit := [ex_root; ex_commit].

Definition ex_repos : repos_t := [(lit "demo", (lit "https://example/demo.git", 5%Z))].

Definition ex_row (hist verdict : str) : Row :=
  {| repo := lit "demo"; old_file_path := lit "a.py";
     new_file_path := lit "a.py"; commit_SHA := lit "c1";
     parent_commit_SHA := lit "c0"; commit_message := lit "edit";
     diff_myers := ex_text_xy; diff_hist := hist; Discrepancy := verdict |}.

(** Two raw diffs that differ in one line only: the deletion of an SQL
    comment line, "-- old" in one and "-- new" in the other. *)
Definition ex_sql_myers : str :=
  lit "@@ -1,2 +1 @@" ++ [LF] ++ lit "--- old" ++ [LF] ++ lit " SELECT 1;".
Definition ex_sql_hist : str :=
  lit "@@ -1,2 +1 @@" ++ [LF] ++ lit "--- new" ++ [LF] ++ lit " SELECT 1;".

Definition ex_git_sql (repo_path parent commit_hash file_path algo : str)
    : str :=
  if str_eqb algo (lit "myers") then ex_sql_myers else ex_sql_hist.

(** Two lines with the same text, one of them behind the blank of a
    context line. *)
Definition ex_header_twice : str :=
  lit "--- a/f" ++ [LF] ++ lit " --- a/f".

(** An event of the plotting library. *)
Definition is_plot_event (e : Event) : bool :=
  match e with print _ => false | _ => true end.

Definition b2n (b : bool) : nat := if b then 1 else 0.

Definition ex_df_row (path verdict : string) : DfRow :=
  {| df_new_file_path := Some (lit path);
     df_Discrepancy := Some (lit verdict) |}.

(** A context line whose text starts with "index". *)
Definition ex_context_index : str := lit " index foo".

(** The diff of a one-line change, as git prints it. *)
Definition ex_hunk : str :=
  lit "index 1a2b..3c4d 100644" ++ [LF] ++ lit "--- a/f.py" ++ [LF]
  ++ lit "+++ b/f.py" ++ [LF] ++ lit "@@ -1 +1 @@ " ++ [LF]
  ++ lit "-x" ++ [CR; LF] ++ lit "+y" ++ [LF].

(* ================================================================== *)
(** ** The git invocation (source lines 11-23) *)
(* ================================================================== *)

(** The list [cmd]. *)
Definition git_diff_cmd (repo_path parent commit_hash file_path algo : str)
    : list str :=
  [lit "git"; lit "-C"; repo_path; lit "diff"; parent; commit_hash;
   lit "--"; file_path;
   lit "--ignore-blank-lines"; lit "--ignore-space-change";
   lit "--diff-algorithm=" ++ algo].

Section GitDiff.

(** [subprocess.run(cmd, ...).stdout]: the decoded standard output of the
    child process, whatever its exit status. *)
Variable subprocess_stdout : list str -> str.

Definition run_git_diff (repo_path parent commit_hash file_path algo : str)
    : str :=
  subprocess_stdout (git_diff_cmd repo_path parent commit_hash file_path algo).

End GitDiff.

(* ================================================================== *)
(** ** Cloning or pulling the repositories (source lines 37-54) *)
(* ================================================================== *)

Inductive SetupEvent :=
| setup_print (s : str)
| setup_run (cmd : list str).

Section Setup.

(** The file system, what [os.path.exists] answers on it, and what
    [os.makedirs] and a git child process do to it. *)
Variable FS : Type.
Variable path_exists : FS -> str -> bool.
Variable makedirs : str -> FS -> FS.
Variable subprocess_run : list str -> FS -> FS.

(** Body of [for name, (url, _) in repos.items()]. *)
Definition setup_repo (st : FS * list SetupEvent) (entry : str * (str * Z))
    : FS * list SetupEvent :=
  let '(fs, out) := st in
  let '(name, (url, _)) := entry in
  let repo_path := os_path_join BASE_DIR name in
  if negb (path_exists fs repo_path) then
    (subprocess_run [lit "git"; lit "clone"; url; repo_path] fs,
     out ++ [setup_print (lit "Cloning " ++ name ++ lit "...");
             setup_run [lit "git"; lit "clone"; url; repo_path]])
  else
    (subprocess_run [lit "git"; lit "-C"; repo_path; lit "pull"] fs,
     out ++ [setup_print (lit "Repository " ++ name
                          ++ lit " already exists, pulling latest changes...");
             setup_run [lit "git"; lit "-C"; repo_path; lit "pull"]]).

Definition setup (rs : repos_t) (fs : FS) : FS * list SetupEvent :=
  fold_left setup_repo rs (makedirs BASE_DIR fs, []).

End Setup.

(** The child processes among the events, in order. *)
Definition commands_of (evs : list SetupEvent) : list (list str) :=
  flat_map (fun e => match e with setup_run cmd => [cmd] | _ => [] end) evs.

(** The command chosen for a repository entry is its clone or its pull. *)
Definition setup_cmd_for (entry : str * (str * Z)) (cmd : list str) : Prop :=
  cmd = [lit "git"; lit "clone"; fst (snd entry);
         os_path_join BASE_DIR (fst entry)]
  \/ cmd = [lit "git"; lit "-C"; os_path_join BASE_DIR (fst entry);
            lit "pull"].

(** *** More vocabulary *)

(** ASCII upper-casing of one code point and of a string. *)
Definition ascii_upper (c : char) : char :=
  (if (97 <=? c) && (c <=? 122) then c - 32 else c)%N.

Definition ascii_lower (c : char) : char :=
  (if (65 <=? c) && (c <=? 90) then c + 32 else c)%N.

(** The row passes the test of at least one category. *)
Definition in_some_category (r : DfRow) : bool :=
  is_source r || is_test r || is_readme r || is_license r.

(** A child process that answers by the algorithm it is asked for. *)
Definition ex_stdout (cmd : list str) : str :=
  if str_eqb (last cmd []) (lit "--diff-algorithm=myers")
  then ex_text_xy else ex_text_xyz.

(** A merge commit: two parents. *)
Definition ex_merge : Commit :=
  {| hash := lit "c2"; parents := [lit "c1"; lit "b7"]; msg := lit "merge";
     modified_files := [ex_mod_a] |}.

(** A file system that holds the given paths; child processes and
    [makedirs] leave it as it is. *)
Definition ex_fs_exists (fs : list str) (path : str) : bool :=
  existsb (str_eqb path) fs.
Definition ex_fs_keep (arg : str) (fs : list str) : list str := fs.
Definition ex_fs_run (cmd : list str) (fs : list str) : list str := fs.

(** What the set-up loop prints and runs for one repository entry: the
    cloning line and the clone, or the pulling line and the pull. *)
Definition setup_events_for (entry : str * (str * Z))
    (evs : list SetupEvent) : Prop :=
  evs = [setup_print (lit "Cloning " ++ fst entry ++ lit "...");
         setup_run [lit "git"; lit "clone"; fst (snd entry);
                    os_path_join BASE_DIR (fst entry)]]
  \/ evs = [setup_print (lit "Repository " ++ fst entry
                         ++ lit " already exists, pulling latest changes...");
            setup_run [lit "git"; lit "-C";
                       os_path_join BASE_DIR (fst entry); lit "pull"]].

(** A history of two commits with parents, the same history cut after the
    first commit, and a configuration whose cap is one. *)
Definition ex_traverse_long (repo_path : str) : list Commit :=
  [ex_commit; ex_merge].
Definition ex_traverse_cut (repo_path : str) : list Commit := [ex_commit].
Definition ex_repos_cap1 : repos_t :=
  [(lit "demo", (lit "https://example/demo.git", 1%Z))].

(* ================================================================== *)
(** ** Sanity checks on concrete inputs *)
(* ================================================================== *)

Example splitlines_ex1 :
  splitlines (lit "a" ++ [CR; LF] ++ lit "b" ++ [LF]) = [lit "a"; lit "b"].
Proof. reflexivity. Qed.

Example splitlines_ex2 :
  splitlines [LF; LF] = [[]; []] /\ splitlines [CR; CR; LF] = [[]; []]
  /\ splitlines (lit "ab") = [lit "ab"] /\ splitlines [] = [].
Proof. repeat split. Qed.

Example normalize_ex1 :
  normalize_diff (lit "index 12..34" ++ [LF] ++ lit "--- a/f" ++ [LF]
                  ++ lit "+++ b/f" ++ [LF] ++ lit "@@ -1 +1 @@  " ++ [LF]
                  ++ lit "-x" ++ [LF] ++ lit "+y" ++ [LF])
  = lit "@@ -1 +1 @@" ++ [LF] ++ lit "-x" ++ [LF] ++ lit "+y".
Proof. reflexivity. Qed.

Example normalize_ex2 :
  normalize_diff (lit " index foo") = lit "index foo"
  /\ normalize_diff (lit "index foo") = [].
Proof. split; reflexivity. Qed.

Example normalize_ex3 :
  normalize_diff (lit "a" ++ [LF; LF]) = lit "a" ++ [LF]
  /\ normalize_diff (lit "a" ++ [LF]) = lit "a".
Proof. split; reflexivity. Qed.

Example strip_ex :
  strip ([9; 32]%N ++ lit "a b" ++ [160; 10]%N) = lit "a b"
  /\ strip [32; 32]%N = [] /\ strip [] = [].
Proof. repeat split. Qed.

Example dataset_ex :
  generate_dataset ex_git_differs ex_traverse ex_repos
  = [ex_row ex_text_xyz (lit "Yes")]
  /\ generate_dataset ex_git_agrees ex_traverse ex_repos
     = [ex_row ex_text_xy (lit "No")].
Proof. split; vm_compute; reflexivity. Qed.

(** With a cap of one only the root commit is reached. *)
Example cap_ex :
  commits_loop ex_git_differs (lit "demo") (lit "repos/demo") 1
               [ex_root; ex_commit] 0 []
  = (1%Z, []).
Proof. vm_compute; reflexivity. Qed.

Example contains_ex :
  ci_contains (lit "src/TestUtil.java") (lit "test") = true
  /\ ci_contains (lit "docs/readme.txt") (lit "README") = true
  /\ ci_contains (lit "te") (lit "test") = false
  /\ ci_contains (lit "te" ++ [383]%N ++ lit "t") (lit "test") = true.
Proof. repeat split. Qed.

(* ================================================================== *)
(** ** Facts about the string methods *)
(* ================================================================== *)

Lemma str_eqb_eq (a b : str) : str_eqb a b = true <-> a = b.
Proof.
  revert b; induction a as [|x a IH]; intros [|y b]; simpl;
    try (split; congruence).
  rewrite andb_true_iff, N.eqb_eq, IH. split.
  - intros [-> ->]; reflexivity.
  - intros E; injection E; auto.
Qed.

Lemma str_eqb_refl (a : str) : str_eqb a a = true.
Proof. apply str_eqb_eq; reflexivity. Qed.

Lemma keep_not_header (l : str) : keep l = negb (is_header l).
Proof.
  unfold keep, is_header.
  destruct (startswith l (lit "index")), (startswith l (lit "---")),
    (startswith l (lit "+++")); reflexivity.
Qed.

Lemma linebreak_is_space (c : char) : is_linebreak c = true -> is_space c = true.
Proof.
  unfold is_linebreak, is_space.
  rewrite !orb_true_iff, !andb_true_iff, !N.eqb_eq, !N.leb_le.
  intros H. repeat rewrite ?orb_true_iff, ?andb_true_iff, ?N.eqb_eq, ?N.leb_le.
  lia.
Qed.

(** Induction on a string two characters at a time, as [splitlines]
    recurses. *)
Lemma str_ind2 (P : str -> Prop) :
  P [] ->
  (forall c, P [c]) ->
  (forall c c' s, P s -> P (c' :: s) -> P (c :: c' :: s)) ->
  forall s, P s.
Proof.
  intros H0 H1 H2.
  assert (forall s, P s /\ forall c, P (c :: s)) as H.
  { induction s as [|c s [IHs IHc]]; split; auto. }
  intros s; apply H.
Qed.

Lemma splitlines_cons_plain (c : char) (s : str) :
  is_linebreak c = false ->
  splitlines (c :: s) =
    match splitlines s with [] => [[c]] | l :: ls => (c :: l) :: ls end.
Proof. intros H; simpl; rewrite H; reflexivity. Qed.

Lemma splitlines_no_linebreak (s : str) :
  Forall no_linebreak (splitlines s).
Proof.
  induction s as [|c|c c' s IH IH'] using str_ind2.
  - constructor.
  - simpl. destruct (is_linebreak c) eqn:E; repeat constructor; exact E.
  - destruct (is_linebreak c) eqn:E.
    + simpl splitlines at 1. rewrite E.
      destruct ((c =? CR) && (c' =? LF))%N; constructor; auto; constructor.
    + rewrite splitlines_cons_plain by exact E.
      destruct (splitlines (c' :: s)) as [|l ls].
      * repeat constructor; exact E.
      * inversion IH'; subst. constructor; auto. constructor; auto.
Qed.

Lemma splitlines_app_LF (l r : str) :
  no_linebreak l -> splitlines (l ++ LF :: r) = l :: splitlines r.
Proof.
  induction 1 as [|c l Hc Hl IH]; simpl app.
  - destruct r; reflexivity.
  - rewrite splitlines_cons_plain by exact Hc. rewrite IH. reflexivity.
Qed.

Lemma splitlines_one_line (l : str) :
  no_linebreak l -> l <> [] -> splitlines l = [l].
Proof.
  induction 1 as [|c l Hc Hl IH]; intros Hne; [congruence|].
  rewrite splitlines_cons_plain by exact Hc.
  destruct l as [|c' l']; [reflexivity|].
  rewrite IH by discriminate. reflexivity.
Qed.

Lemma join_cons2 (sep p q : str) (rest : list str) :
  join sep (p :: q :: rest) = p ++ sep ++ join sep (q :: rest).
Proof. reflexivity. Qed.

(** Splitting a joined text gives the lines back, unless the last line is
    empty: that one is lost. *)
Lemma splitlines_join (ls : list str) :
  Forall no_linebreak ls ->
  splitlines (join [LF] ls) = resplit ls.
Proof.
  induction 1 as [|l ls Hl Hls IH]; [reflexivity|].
  destruct ls as [|l2 ls'].
  - simpl. destruct l as [|c l]; [reflexivity|].
    simpl str_eqb. apply splitlines_one_line; [exact Hl|discriminate].
  - rewrite join_cons2.
    change ([LF] ++ join [LF] (l2 :: ls')) with (LF :: join [LF] (l2 :: ls')).
    rewrite splitlines_app_LF by exact Hl. rewrite IH. unfold resplit.
    change (last (l :: l2 :: ls') []) with (last (l2 :: ls') []).
    change (removelast (l :: l2 :: ls')) with (l :: removelast (l2 :: ls')).
    destruct (str_eqb (last (l2 :: ls') []) []); reflexivity.
Qed.

(** *** [strip] *)

Lemma lstrip_split (s : str) :
  exists p, s = p ++ lstrip s /\ Forall (fun c => is_space c = true) p.
Proof.
  induction s as [|c s (p & E & Hp)]; simpl.
  - exists []; split; [reflexivity|constructor].
  - destruct (is_space c) eqn:Ec.
    + exists (c :: p); split; [simpl; congruence|constructor; assumption].
    + exists []; split; [reflexivity|constructor].
Qed.

Lemma lstrip_head_kept (s : str) : head_kept (lstrip s).
Proof.
  induction s as [|c s IH]; simpl; [exact I|].
  destruct (is_space c) eqn:Ec; [exact IH|exact Ec].
Qed.

Lemma lstrip_fixed (s : str) : head_kept s -> lstrip s = s.
Proof. destruct s as [|c s]; simpl; [reflexivity|intros ->; reflexivity]. Qed.

Lemma rstrip_split (s : str) : exists q, s = rstrip s ++ q.
Proof.
  unfold rstrip. destruct (lstrip_split (rev s)) as (p & E & _).
  exists (rev p). rewrite <- rev_app_distr, <- E, rev_involutive. reflexivity.
Qed.

Lemma head_kept_rstrip (s : str) : head_kept s -> head_kept (rstrip s).
Proof.
  destruct (rstrip_split s) as (q & E). intros H.
  destruct (rstrip s) as [|c r]; [exact I|].
  rewrite E in H. exact H.
Qed.

Lemma rstrip_fixed (s : str) : head_kept (rev s) -> rstrip s = s.
Proof.
  intros H. unfold rstrip. rewrite lstrip_fixed by exact H.
  apply rev_involutive.
Qed.

Lemma strip_fixed (s : str) : head_kept s -> head_kept (rev s) -> strip s = s.
Proof.
  intros H1 H2. unfold strip. rewrite (lstrip_fixed s H1).
  apply rstrip_fixed, H2.
Qed.

Lemma strip_head_kept (s : str) : head_kept (strip s).
Proof. apply head_kept_rstrip, lstrip_head_kept. Qed.

Lemma strip_last_kept (s : str) : head_kept (rev (strip s)).
Proof.
  unfold strip, rstrip. rewrite rev_involutive. apply lstrip_head_kept.
Qed.

Lemma strip_idempotent (s : str) : strip (strip s) = strip s.
Proof. apply strip_fixed; [apply strip_head_kept|apply strip_last_kept]. Qed.

Lemma Forall_lstrip (P : char -> Prop) (s : str) :
  Forall P s -> Forall P (lstrip s).
Proof.
  induction 1 as [|c s Hc Hs IH]; simpl; [constructor|].
  destruct (is_space c); [exact IH|constructor; assumption].
Qed.

Lemma Forall_strip (P : char -> Prop) (s : str) :
  Forall P s -> Forall P (strip s).
Proof.
  intros H. unfold strip, rstrip.
  apply Forall_rev, Forall_lstrip, Forall_rev, Forall_lstrip, H.
Qed.

(** *** The lines of a normalised text *)

Lemma normalize_lines_no_linebreak (T : str) :
  Forall no_linebreak (normalize_lines T).
Proof.
  unfold normalize_lines. apply Forall_map.
  apply Forall_forall. intros l Hl. apply filter_In in Hl as [Hl _].
  apply Forall_strip.
  exact (proj1 (Forall_forall _ _) (splitlines_no_linebreak T) l Hl).
Qed.

Lemma normalize_lines_stripped (T : str) :
  Forall (fun l => strip l = l) (normalize_lines T).
Proof.
  unfold normalize_lines. apply Forall_map, Forall_forall.
  intros l _. apply strip_idempotent.
Qed.

Lemma map_fixed {A} (f : A -> A) (l : list A) :
  Forall (fun x => f x = x) l -> map f l = l.
Proof. induction 1; simpl; congruence. Qed.

Lemma Forall_removelast {A} (P : A -> Prop) (l : list A) :
  Forall P l -> Forall P (removelast l).
Proof.
  induction 1 as [|x l Hx Hl IH]; simpl; [constructor|].
  destruct l; [constructor|constructor; assumption].
Qed.

Lemma Forall_filter {A} (P : A -> Prop) (f : A -> bool) (l : list A) :
  Forall P l -> Forall P (filter f l).
Proof.
  induction 1 as [|x l Hx Hl IH]; simpl; [constructor|].
  destruct (f x); [constructor|]; assumption.
Qed.

Lemma filter_all {A} (f : A -> bool) (l : list A) :
  Forall (fun x => f x = true) l -> filter f l = l.
Proof. induction 1 as [|x l Hx Hl IH]; simpl; [|rewrite Hx, IH]; reflexivity. Qed.

Lemma Forall_resplit (P : str -> Prop) (ls : list str) :
  Forall P ls -> Forall P (resplit ls).
Proof.
  intros H. unfold resplit. destruct ls; [constructor|].
  destruct (str_eqb _ _); [apply Forall_removelast|]; exact H.
Qed.

Lemma normalize_lines_twice (T : str) :
  normalize_lines (normalize_diff T)
  = filter keep (resplit (normalize_lines T)).
Proof.
  unfold normalize_diff. unfold normalize_lines at 1.
  rewrite splitlines_join by apply normalize_lines_no_linebreak.
  apply map_fixed, Forall_filter, Forall_resplit, normalize_lines_stripped.
Qed.

(* ================================================================== *)
(** ** Idempotence of the normaliser *)
(* ================================================================== *)

(** C1, counterexample.  A context line of a diff reads " index foo": it
    does not start with "index", so the first pass keeps and strips it; the
    second pass then finds "index foo" and drops it. *)
Lemma normalize_diff_not_idempotent :
  ~ (forall T : str, normalize_diff (normalize_diff T) = normalize_diff T).
Proof.
  intros H. specialize (H ex_context_index).
  vm_compute in H. discriminate H.
Qed.

(** A second way to lose idempotence: a blank last line. *)
Lemma blank_last_line_breaks_idempotence :
  normalize_diff (normalize_diff (lit "a" ++ [LF; LF]))
  <> normalize_diff (lit "a" ++ [LF; LF]).
Proof. vm_compute. discriminate. Qed.

(** C1, amended.  Normalising twice equals normalising once for every
    text whose normalised lines do not start with "index", "---" or "+++"
    and whose last normalised line is not empty (or which has at most one
    normalised line). *)
Theorem normalize_diff_idempotent_on (T : str) :
  Forall (fun l => is_header l = false) (normalize_lines T) ->
  (List.length (normalize_lines T) <= 1 \/ last (normalize_lines T) [] <> []) ->
  normalize_diff (normalize_diff T) = normalize_diff T.
Proof.
  intros Hh Hl. unfold normalize_diff at 1 3. rewrite normalize_lines_twice.
  destruct (normalize_lines T) as [|l ls]; [reflexivity|].
  unfold resplit. destruct (str_eqb (last (l :: ls) []) []) eqn:E.
  - apply str_eqb_eq in E. destruct Hl as [Hl|Hl]; [|contradiction].
    destruct ls as [|l2 ls]; [|simpl in Hl; lia].
    simpl in E. subst l. reflexivity.
  - f_equal. apply filter_all.
    eapply Forall_impl; [|exact Hh].
    intros a Ha. rewrite keep_not_header, Ha. reflexivity.
Qed.

Lemma normalize_diff_idempotent_on_witness :
  normalize_diff (normalize_diff ex_hunk) = normalize_diff ex_hunk.
Proof.
  apply (normalize_diff_idempotent_on ex_hunk).
  - vm_compute. repeat constructor.
  - right. vm_compute. discriminate.
Defined.

(** *** The condition is also necessary *)

Lemma count_LF_line (l : str) :
  no_linebreak l -> count_occ N.eq_dec l LF = 0.
Proof.
  induction 1 as [|c l Hc Hl IH]; [reflexivity|].
  simpl. destruct (N.eq_dec c LF) as [->|_]; [discriminate Hc|exact IH].
Qed.

Lemma count_LF_join (ls : list str) :
  Forall no_linebreak ls ->
  count_occ N.eq_dec (join [LF] ls) LF = pred (List.length ls).
Proof.
  induction 1 as [|l ls Hl Hls IH]; [reflexivity|].
  destruct ls as [|l2 ls'].
  - simpl. apply count_LF_line, Hl.
  - pose proof (count_LF_line Hl) as H1.
    rewrite join_cons2, !count_occ_app. unfold str, char in *.
    rewrite IH, H1. reflexivity.
Qed.

Lemma filter_length_all {A} (f : A -> bool) (l : list A) :
  List.length (filter f l) = List.length l ->
  Forall (fun x => f x = true) l.
Proof.
  induction l as [|x l IH]; simpl; [constructor|].
  pose proof (filter_length_le f l) as Hle.
  destruct (f x) eqn:E; simpl; intros H; [|lia].
  constructor; [exact E|apply IH; lia].
Qed.

Lemma removelast_length {A} (l : list A) :
  List.length (removelast l) = pred (List.length l).
Proof.
  induction l as [|x l IH]; [reflexivity|].
  destruct l as [|y l]; [reflexivity|].
  change (removelast (x :: y :: l)) with (x :: removelast (y :: l)).
  simpl List.length in *. rewrite IH. reflexivity.
Qed.

(** Whenever the two passes agree, the condition of
    [normalize_diff_idempotent_on] holds. *)
Lemma idempotent_only_on (T : str) :
  normalize_diff (normalize_diff T) = normalize_diff T ->
  Forall (fun l => is_header l = false) (normalize_lines T)
  /\ (List.length (normalize_lines T) <= 1 \/ last (normalize_lines T) [] <> []).
Proof.
  unfold normalize_diff at 1 3. rewrite normalize_lines_twice.
  pose proof (normalize_lines_no_linebreak T) as Hnl.
  set (ls := normalize_lines T) in *. intros E.
  assert (Hc : pred (List.length (filter keep (resplit ls)))
               = pred (List.length ls)).
  { rewrite <- !count_LF_join; [rewrite E; reflexivity|exact Hnl|].
    apply Forall_filter, Forall_resplit, Hnl. }
  pose proof (filter_length_le keep (resplit ls)) as Hf.
  assert (Hkeep : Forall (fun x => keep x = true) ls ->
                  Forall (fun l => is_header l = false) ls).
  { apply Forall_impl. intros a. rewrite keep_not_header.
    destruct (is_header a); [discriminate|reflexivity]. }
  destruct ls as [|l ls']; [split; [constructor|left; simpl; lia]|].
  destruct ls' as [|l2 ls''].
  - split; [|left; simpl; lia].
    apply Hkeep. constructor; [|constructor].
    destruct l as [|c l]; [reflexivity|].
    simpl in E. destruct (keep (c :: l)); [reflexivity|discriminate E].
  - unfold resplit in *.
    destruct (str_eqb (last (l :: l2 :: ls'') []) []) eqn:El.
    + rewrite removelast_length in Hf. simpl List.length in *. lia.
    + split.
      * apply Hkeep, filter_length_all. simpl List.length in *. lia.
      * right. intros Hlast.
        apply (proj2 (str_eqb_eq _ _)) in Hlast. congruence.
Qed.

(* ================================================================== *)
(** ** What the normaliser keeps *)
(* ================================================================== *)

Lemma StronglySorted_map_S (idx : list nat) :
  StronglySorted lt idx -> StronglySorted lt (map S idx).
Proof.
  induction 1 as [|i idx Hs IH Hi]; simpl; constructor; [exact IH|].
  apply Forall_map. eapply Forall_impl; [|exact Hi]. intros; simpl; lia.
Qed.

Lemma positions_sorted {A} (f : A -> bool) (l : list A) :
  StronglySorted lt (positions f l).
Proof.
  induction l as [|x r IH]; simpl; [constructor|].
  destruct (f x); [constructor|]; try apply StronglySorted_map_S, IH.
  apply Forall_map, Forall_forall. intros; lia.
Qed.

Lemma positions_In {A} (f : A -> bool) (l : list A) (i : nat) :
  In i (positions f l) <-> exists x, nth_error l i = Some x /\ f x = true.
Proof.
  revert i; induction l as [|x r IH]; intros i; simpl.
  - split; [tauto|]. intros (y & H & _). destruct i; discriminate H.
  - assert (HS : In i (map S (positions f r)) <->
                 exists j, i = S j /\ exists y, nth_error r j = Some y /\ f y = true).
    { rewrite in_map_iff. split.
      - intros (j & <- & Hj). exists j. split; [reflexivity|apply IH, Hj].
      - intros (j & -> & Hj). exists j. split; [reflexivity|apply IH, Hj]. }
    destruct (f x) eqn:E; simpl; rewrite HS; split.
    + intros [<-|(j & -> & Hj)]; [exists x; auto|exact Hj].
    + intros (y & Hy & Hf). destruct i as [|j]; [left; reflexivity|].
      right. exists j. split; [reflexivity|exists y; auto].
    + intros (j & -> & Hj); exact Hj.
    + intros (y & Hy & Hf). destruct i as [|j].
      * simpl in Hy. congruence.
      * exists j. split; [reflexivity|exists y; auto].
Qed.

Lemma filter_positions {A} (f : A -> bool) (l : list A) (d : A) :
  filter f l = map (fun i => nth i l d) (positions f l).
Proof.
  induction l as [|x r IH]; simpl; [reflexivity|].
  destruct (f x); simpl; rewrite map_map; simpl; rewrite IH; reflexivity.
Qed.

(** C4, counterexample.  The input holds the line "--- a/f" and the
    context line " --- a/f".  The first is dropped; the second is kept and
    stripped, so the output is the line "--- a/f": an input line that starts
    with "---" is a line of the output. *)
Lemma header_text_can_reappear :
  ~ (forall (T l : str),
        In l (splitlines T) -> is_header l = true ->
        ~ In l (splitlines (normalize_diff T))).
Proof.
  intros H.
  apply (H ex_header_twice (lit "--- a/f")).
  - vm_compute. left. reflexivity.
  - reflexivity.
  - vm_compute. left. reflexivity.
Qed.

(** C4, amended.  The output is the join of the stripped input lines at an
    increasing sequence of positions (order is kept); these positions are
    exactly those of the input lines that do not start with "index", "---"
    or "+++" (every such occurrence is retained, every header occurrence is
    removed); and each line put into the output has no white space left at
    either end. *)
Theorem normalize_diff_keeps (T : str) :
  exists idx : list nat,
    StronglySorted lt idx
    /\ (forall i, In i idx <->
                  exists l, nth_error (splitlines T) i = Some l
                            /\ is_header l = false)
    /\ normalize_lines T = map (fun i => strip (nth i (splitlines T) [])) idx
    /\ normalize_diff T
       = join [LF] (map (fun i => strip (nth i (splitlines T) [])) idx)
    /\ Forall (fun l => head_kept l /\ head_kept (rev l)) (normalize_lines T).
Proof.
  exists (positions keep (splitlines T)).
  assert (E : normalize_lines T
              = map (fun i => strip (nth i (splitlines T) []))
                    (positions keep (splitlines T))).
  { unfold normalize_lines.
    rewrite (filter_positions keep (splitlines T) []), map_map. reflexivity. }
  split; [apply positions_sorted|]. split; [|split; [exact E|split]].
  - intros i. rewrite positions_In. split; intros (l & Hl & Hk); exists l;
      (split; [exact Hl|]); rewrite keep_not_header in *;
      destruct (is_header l); simpl in *; congruence.
  - unfold normalize_diff. rewrite E. reflexivity.
  - unfold normalize_lines. apply Forall_map, Forall_forall. intros l _.
    split; [apply strip_head_kept|apply strip_last_kept].
Qed.

(* ================================================================== *)
(** ** The loops of the pipeline, declaratively *)
(* ================================================================== *)

Section PipelineFacts.

Variable rgd : str -> str -> str -> str -> str -> str.
Variable trav : str -> list Commit.

Lemma process_mod_app name rp c w m :
  process_mod rgd name rp c w m = w ++ mod_rows rgd name rp c m.
Proof.
  unfold mod_rows, process_mod.
  destruct (old_path m), (new_path m), (parents c);
    simpl; rewrite ?app_nil_r; reflexivity.
Qed.

Lemma process_commit_app name rp w c :
  process_commit rgd name rp w c = w ++ commit_rows rgd name rp c.
Proof.
  unfold process_commit, commit_rows.
  generalize (modified_files c) as ms. intros ms; revert w.
  induction ms as [|m ms IH]; intros w; simpl.
  - rewrite app_nil_r; reflexivity.
  - rewrite IH, process_mod_app, <- app_assoc. reflexivity.
Qed.

(** The loop over the commits: how many it counts and what it writes,
    from any counter value. *)
Lemma commits_loop_spec name rp cap cs k w :
  commits_loop rgd name rp cap cs k w
  = ((k + Z.of_nat (List.length (firstn (Z.to_nat (cap - k)) cs)))%Z,
     w ++ flat_map (commit_rows rgd name rp)
                   (firstn (Z.to_nat (cap - k)) cs)).
Proof.
  revert k w; induction cs as [|c cs IH]; intros k w.
  - simpl. rewrite firstn_nil, app_nil_r. simpl. f_equal; lia.
  - simpl. destruct (k >=? cap)%Z eqn:E.
    + apply Z.geb_le in E.
      replace (Z.to_nat (cap - k)) with 0 by lia.
      simpl. rewrite app_nil_r. f_equal; lia.
    + rewrite Z.geb_leb in E. apply Z.leb_gt in E.
      rewrite IH.
      replace (Z.to_nat (cap - k)) with (S (Z.to_nat (cap - (k + 1)))) by lia.
      rewrite process_commit_app.
      simpl. rewrite <- app_assoc. f_equal. lia.
Qed.

Lemma process_repo_app w e :
  process_repo rgd trav w e = w ++ repo_rows rgd trav e.
Proof.
  destruct e as (name & url & cap).
  unfold process_repo. rewrite commits_loop_spec. simpl snd.
  rewrite Z.sub_0_r. reflexivity.
Qed.

Lemma generate_dataset_flat (rs : repos_t) :
  generate_dataset rgd trav rs = flat_map (repo_rows rgd trav) rs.
Proof.
  unfold generate_dataset.
  assert (H : forall w, fold_left (process_repo rgd trav) rs w
                        = w ++ flat_map (repo_rows rgd trav) rs).
  { induction rs as [|e rs IH]; intros w; simpl.
    - rewrite app_nil_r; reflexivity.
    - rewrite IH, process_repo_app, <- app_assoc. reflexivity. }
  apply (H []).
Qed.

End PipelineFacts.

Lemma Forall2_flat_map {A B C} (R : B -> C -> Prop)
    (f : A -> list B) (g : A -> list C) (l : list A) :
  (forall x, In x l -> Forall2 R (f x) (g x)) ->
  Forall2 R (flat_map f l) (flat_map g l).
Proof.
  induction l as [|x l IH]; intros H; simpl; [constructor|].
  apply Forall2_app; [apply H; left; reflexivity|].
  apply IH. intros y Hy. apply H. right; exact Hy.
Qed.

(** What a written row looks like. *)
Lemma mod_rows_inv rgd name rp c m r :
  In r (mod_rows rgd name rp c m) ->
  exists old_p new_p parent rest,
    old_path m = Some old_p /\ new_path m = Some new_p
    /\ parents c = parent :: rest
    /\ r = {| repo := name; old_file_path := old_p; new_file_path := new_p;
              commit_SHA := hash c; parent_commit_SHA := parent;
              commit_message := strip (msg c);
              diff_myers := rgd rp parent (hash c) new_p (lit "myers");
              diff_hist := rgd rp parent (hash c) new_p (lit "histogram");
              Discrepancy :=
                discrepancy
                  (normalize_diff (rgd rp parent (hash c) new_p (lit "myers")))
                  (normalize_diff
                     (rgd rp parent (hash c) new_p (lit "histogram"))) |}.
Proof.
  unfold mod_rows, process_mod.
  destruct (old_path m) as [op|], (new_path m) as [np|],
    (parents c) as [|parent rest]; simpl; try tauto.
  intros [<-|[]]. exists op, np, parent, rest. auto.
Qed.

Lemma dataset_row_inv rgd trav rs r :
  In r (generate_dataset rgd trav rs) ->
  exists e c m,
    In e rs /\ In c (processed_commits trav e) /\ In m (modified_files c)
    /\ In r (mod_rows rgd (fst e) (os_path_join BASE_DIR (fst e)) c m).
Proof.
  rewrite generate_dataset_flat. intros H.
  apply in_flat_map in H as (e & He & H). unfold repo_rows in H.
  apply in_flat_map in H as (c & Hc & H). unfold commit_rows in H.
  apply in_flat_map in H as (m & Hm & H).
  exists e, c, m. auto.
Qed.

Lemma discrepancy_yes_iff (a b : str) :
  discrepancy a b = lit "Yes" <-> discrepancy_cond a b = true.
Proof.
  unfold discrepancy. destruct (discrepancy_cond a b); split;
    try reflexivity; discriminate.
Qed.

Lemma discrepancy_no_iff (a b : str) :
  discrepancy a b = lit "No" <-> discrepancy_cond a b = false.
Proof.
  unfold discrepancy. destruct (discrepancy_cond a b); split;
    try reflexivity; discriminate.
Qed.

Lemma discrepancy_cond_iff (a b : str) :
  discrepancy_cond a b = true <->
  (a <> b \/ List.length (splitlines a) <> List.length (splitlines b)).
Proof.
  unfold discrepancy_cond.
  rewrite orb_true_iff, !negb_true_iff, Nat.eqb_neq.
  rewrite <- not_true_iff_false, str_eqb_eq. reflexivity.
Qed.

(* ================================================================== *)
(** ** The verdict *)
(* ================================================================== *)

(** C2.  Every row the pipeline writes holds the outputs of the two git
    invocations for its file, and its verdict is "Yes" exactly when the
    two normalised texts differ or their numbers of lines differ, and "No"
    exactly when neither is the case. *)
Theorem verdict_is_or_of_both_checks rgd trav rs r :
  In r (generate_dataset rgd trav rs) ->
  (exists rp parent,
      diff_myers r = rgd rp parent (commit_SHA r) (new_file_path r) (lit "myers")
      /\ diff_hist r
         = rgd rp parent (commit_SHA r) (new_file_path r) (lit "histogram"))
  /\ (Discrepancy r = lit "Yes" <->
       (normalize_diff (diff_myers r) <> normalize_diff (diff_hist r)
        \/ List.length (splitlines (normalize_diff (diff_myers r)))
           <> List.length (splitlines (normalize_diff (diff_hist r)))))
  /\ (Discrepancy r = lit "No" <->
       ~ (normalize_diff (diff_myers r) <> normalize_diff (diff_hist r)
          \/ List.length (splitlines (normalize_diff (diff_myers r)))
             <> List.length (splitlines (normalize_diff (diff_hist r))))).
Proof.
  intros H. apply dataset_row_inv in H as (e & c & m & _ & _ & _ & H).
  apply mod_rows_inv in H as (op & np & parent & rest & _ & _ & _ & ->).
  cbn [diff_myers diff_hist Discrepancy commit_SHA new_file_path].
  split; [exists (os_path_join BASE_DIR (fst e)), parent; auto|].
  rewrite discrepancy_yes_iff, discrepancy_no_iff, <- discrepancy_cond_iff.
  split; [reflexivity|]. symmetry. apply not_true_iff_false.
Qed.

Lemma verdict_is_or_of_both_checks_witness :
  generate_dataset ex_git_differs ex_traverse ex_repos
  = [ex_row ex_text_xyz (lit "Yes")]
  /\ (Discrepancy (ex_row ex_text_xyz (lit "Yes")) = lit "Yes" <->
      (normalize_diff ex_text_xy <> normalize_diff ex_text_xyz
       \/ List.length (splitlines (normalize_diff ex_text_xy))
          <> List.length (splitlines (normalize_diff ex_text_xyz)))).
Proof.
  split; [vm_compute; reflexivity|].
  refine (proj1 (proj2 (@verdict_is_or_of_both_checks
            ex_git_differs ex_traverse ex_repos
            (ex_row ex_text_xyz (lit "Yes")) _))).
  vm_compute. left. reflexivity.
Defined.

Lemma discrepancy_cond_neq (a b : str) :
  discrepancy_cond a b = negb (str_eqb a b).
Proof.
  unfold discrepancy_cond. destruct (str_eqb a b) eqn:Eab; [|reflexivity].
  apply str_eqb_eq in Eab. subst b. rewrite Nat.eqb_refl. reflexivity.
Qed.

(** C5.  The line-count test adds nothing: the OR-combined condition is
    string inequality, as a proposition, as the boolean the code computes
    and as the verdict it writes. *)
Theorem line_count_check_redundant (a b : str) :
  ((a <> b \/ List.length (splitlines a) <> List.length (splitlines b))
   <-> a <> b)
  /\ discrepancy_cond a b = negb (str_eqb a b)
  /\ discrepancy a b = (if str_eqb a b then lit "No" else lit "Yes").
Proof.
  split; [|split; [apply discrepancy_cond_neq|]].
  - split; [|auto]. intros [H|H]; [exact H|].
    intros ->. apply H. reflexivity.
  - unfold discrepancy. rewrite discrepancy_cond_neq.
    destruct (str_eqb a b); reflexivity.
Qed.

(** C6.  A row whose two raw diff texts are the same text carries the
    verdict "No". *)
Theorem identical_raw_text_gives_No rgd trav rs r :
  In r (generate_dataset rgd trav rs) ->
  diff_myers r = diff_hist r ->
  Discrepancy r = lit "No".
Proof.
  intros H E. apply dataset_row_inv in H as (e & c & m & _ & _ & _ & H).
  apply mod_rows_inv in H as (op & np & parent & rest & _ & _ & _ & ->).
  cbn [diff_myers diff_hist Discrepancy] in *. rewrite E.
  apply discrepancy_no_iff.
  rewrite discrepancy_cond_neq, str_eqb_refl. reflexivity.
Qed.

Lemma identical_raw_text_gives_No_witness :
  generate_dataset ex_git_agrees ex_traverse ex_repos
  = [ex_row ex_text_xy (lit "No")]
  /\ Discrepancy (ex_row ex_text_xy (lit "No")) = lit "No".
Proof.
  split; [vm_compute; reflexivity|].
  apply (@identical_raw_text_gives_No ex_git_agrees ex_traverse ex_repos
           (ex_row ex_text_xy (lit "No"))).
  - vm_compute. left. reflexivity.
  - reflexivity.
Defined.

(* ================================================================== *)
(** ** Which rows are written *)
(* ================================================================== *)

Lemma mod_rows_matches rgd name rp c (ms : list ModifiedFile) :
  Forall2 row_matches
    (map (fun m => (name, c, m)) (filter (qualifies c) ms))
    (flat_map (mod_rows rgd name rp c) ms).
Proof.
  induction ms as [|m ms IH]; simpl; [constructor|].
  unfold qualifies at 1, mod_rows at 1, process_mod.
  destruct (old_path m) as [op|] eqn:Eo, (new_path m) as [np|] eqn:En,
    (parents c) as [|parent rest] eqn:Ep; simpl; try exact IH.
  constructor; [|exact IH].
  unfold row_matches; cbn. rewrite Ep. auto.
Qed.

(** C3.  The rows of the dataset and the qualifying (commit, modified
    file) pairs of the commits within the cap correspond one to one, in
    order: the n-th row carries the repository name, the commit hash, the
    first parent and the two paths of the n-th pair.  A commit without
    parents adds no row whatever it modifies, and a modification without an
    old or a new path adds no row. *)
Theorem one_row_per_qualifying_pair rgd trav rs :
  Forall2 row_matches (qualifying_pairs trav rs) (generate_dataset rgd trav rs)
  /\ List.length (generate_dataset rgd trav rs)
     = List.length (qualifying_pairs trav rs)
  /\ (forall name rp w c,
        parents c = [] -> process_commit rgd name rp w c = w)
  /\ (forall name rp w c m,
        old_path m = None \/ new_path m = None ->
        process_mod rgd name rp c w m = w).
Proof.
  assert (F : Forall2 row_matches (qualifying_pairs trav rs)
                      (generate_dataset rgd trav rs)).
  { rewrite generate_dataset_flat. unfold qualifying_pairs, repo_rows.
    apply Forall2_flat_map. intros e _.
    apply Forall2_flat_map. intros c _.
    apply mod_rows_matches. }
  split; [exact F|]. split; [symmetry; exact (Forall2_length F)|]. split.
  - intros name rp w c Hp. rewrite process_commit_app. unfold commit_rows.
    replace (flat_map _ _) with (@nil Row); [apply app_nil_r|].
    induction (modified_files c) as [|m ms IH]; [reflexivity|].
    simpl. rewrite <- IH. unfold mod_rows, process_mod. rewrite Hp.
    destruct (old_path m), (new_path m); reflexivity.
  - intros name rp w c m [H|H]; unfold process_mod; rewrite H;
      [|destruct (old_path m)]; reflexivity.
Qed.

Lemma one_row_per_qualifying_pair_witness :
  qualifying_pairs ex_traverse ex_repos = [(lit "demo", ex_commit, ex_mod_a)]
  /\ generate_dataset ex_git_differs ex_traverse ex_repos
     = [ex_row ex_text_xyz (lit "Yes")]
  /\ process_commit ex_git_differs (lit "demo") (lit "repos/demo") [] ex_root
     = []
  /\ process_mod ex_git_differs (lit "demo") (lit "repos/demo") ex_commit []
                 ex_mod_added = []
  /\ process_mod ex_git_differs (lit "demo") (lit "repos/demo") ex_commit []
                 ex_mod_deleted = [].
Proof.
  destruct (one_row_per_qualifying_pair ex_git_differs ex_traverse ex_repos)
    as (_ & _ & Hroot & Hpath).
  split; [vm_compute; reflexivity|]. split; [vm_compute; reflexivity|].
  split; [|split].
  - apply Hroot. reflexivity.
  - apply Hpath. left. reflexivity.
  - apply Hpath. right. reflexivity.
Defined.

(* ================================================================== *)
(** ** The commit cap and the order of the repositories *)
(* ================================================================== *)

(** C9.  The commit loop counts (processes) as many commits as the
    traversal yields before the cap, never more than the cap, and writes
    what it would write were the traversal cut at the cap.  For a
    repository entry this means: its rows are those of the first [cap]
    commits of its own traversal, with its own configured cap, and nothing
    else; so the dataset is, in the order of the configuration, the rows of
    the first [cap] commits of each repository, and two traversals that
    agree up to each repository's cap give the same dataset. *)
Theorem commit_cap_and_repository_order rgd trav :
  (forall name rp cap cs w,
      fst (commits_loop rgd name rp cap cs 0 w)
      = Z.min (Z.of_nat (List.length cs)) (Z.max 0 cap)
      /\ (fst (commits_loop rgd name rp cap cs 0 w) <= Z.max 0 cap)%Z
      /\ commits_loop rgd name rp cap cs 0 w
         = commits_loop rgd name rp cap (firstn (Z.to_nat cap) cs) 0 w
      /\ snd (commits_loop rgd name rp cap cs 0 w)
         = w ++ flat_map (commit_rows rgd name rp) (firstn (Z.to_nat cap) cs))
  /\ (forall w name url cap,
        process_repo rgd trav w (name, (url, cap))
        = w ++ flat_map
                 (commit_rows rgd name (os_path_join BASE_DIR name))
                 (firstn (Z.to_nat cap) (trav (os_path_join BASE_DIR name))))
  /\ (forall rs,
        generate_dataset rgd trav rs
        = flat_map
            (fun e =>
               flat_map
                 (commit_rows rgd (fst e) (os_path_join BASE_DIR (fst e)))
                 (firstn (Z.to_nat (snd (snd e)))
                         (trav (os_path_join BASE_DIR (fst e)))))
            rs)
  /\ (forall trav' rs,
        (forall e, In e rs ->
           firstn (Z.to_nat (snd (snd e)))
                  (trav (os_path_join BASE_DIR (fst e)))
           = firstn (Z.to_nat (snd (snd e)))
                    (trav' (os_path_join BASE_DIR (fst e)))) ->
        generate_dataset rgd trav rs = generate_dataset rgd trav' rs)
  /\ (forall rs,
        generate_dataset rgd trav rs
        = flat_map (fun e => generate_dataset rgd trav [e]) rs)
  /\ (forall e,
        Forall (fun r => repo r = fst e) (generate_dataset rgd trav [e])).
Proof.
  split; [|split; [|split; [|split; [|split]]]].
  - intros name rp cap cs w. rewrite !commits_loop_spec.
    rewrite !Z.sub_0_r, firstn_firstn, Nat.min_id. cbn [fst snd].
    rewrite length_firstn. repeat split; lia.
  - intros w name url cap. rewrite process_repo_app. reflexivity.
  - intros rs. rewrite generate_dataset_flat. reflexivity.
  - intros trav' rs H. rewrite !generate_dataset_flat.
    induction rs as [|e rs IH]; [reflexivity|].
    simpl. rewrite IH by (intros e' He'; apply H; right; exact He').
    f_equal. unfold repo_rows, processed_commits.
    rewrite (H e) by (left; reflexivity). reflexivity.
  - intros rs. rewrite generate_dataset_flat.
    apply flat_map_ext. intros e. rewrite generate_dataset_flat.
    simpl. rewrite app_nil_r. reflexivity.
  - intros e. apply Forall_forall. intros r Hr.
    apply dataset_row_inv in Hr as (e' & c & m & [<-|[]] & _ & _ & H).
    apply mod_rows_inv in H as (op & np & parent & rest & _ & _ & _ & ->).
    reflexivity.
Qed.

Lemma commit_cap_and_repository_order_witness :
  generate_dataset ex_git_differs ex_traverse_long ex_repos_cap1
  = generate_dataset ex_git_differs ex_traverse_cut ex_repos_cap1
  /\ generate_dataset ex_git_differs ex_traverse_long ex_repos_cap1
     = [ex_row ex_text_xyz (lit "Yes")]
  /\ List.length
       (generate_dataset ex_git_differs ex_traverse_long ex_repos) = 2.
Proof.
  destruct (commit_cap_and_repository_order ex_git_differs ex_traverse_long)
    as (_ & _ & _ & Hcut & _).
  split; [|split; vm_compute; reflexivity].
  apply Hcut. intros e [<-|[]]. reflexivity.
Defined.

(* ================================================================== *)
(** ** The header filter looks at the prefix only *)
(* ================================================================== *)

Lemma startswith_app (s p r : str) :
  startswith s p = true -> startswith (s ++ r) p = true.
Proof.
  revert s; induction p as [|c p IH]; intros s; simpl; [reflexivity|].
  destruct s as [|d s]; simpl; [discriminate|].
  rewrite !andb_true_iff. intros [H1 H2]. split; [exact H1|apply IH, H2].
Qed.

(** C10.  A line is dropped as soon as it starts with "index", "---" or
    "+++", whatever follows and wherever it stands: it adds nothing to the
    normalised lines.  The deletion line of any text that starts with "--"
    is such a line.  Hence two raw diffs with the same lines apart from
    dropped ones normalise to one string and get "No"; a pair of unequal raw
    diffs of that kind exists, and the pipeline writes "No" for it. *)
Theorem header_filter_is_prefix_only :
  (forall T ls1 l ls2,
      splitlines T = ls1 ++ l :: ls2 ->
      is_header l = true ->
      normalize_lines T
      = map strip (filter keep ls1) ++ map strip (filter keep ls2))
  /\ (forall text rest,
        startswith text (lit "--") = true ->
        is_header ((lit "-" ++ text) ++ rest) = true)
  /\ (forall T T',
        filter keep (splitlines T) = filter keep (splitlines T') ->
        normalize_diff T = normalize_diff T'
        /\ discrepancy (normalize_diff T) (normalize_diff T') = lit "No")
  /\ (ex_sql_myers <> ex_sql_hist
      /\ splitlines ex_sql_myers
         = [lit "@@ -1,2 +1 @@"; lit "-" ++ lit "-- old"; lit " SELECT 1;"]
      /\ splitlines ex_sql_hist
         = [lit "@@ -1,2 +1 @@"; lit "-" ++ lit "-- new"; lit " SELECT 1;"]
      /\ normalize_diff ex_sql_myers = normalize_diff ex_sql_hist
      /\ map Discrepancy (generate_dataset ex_git_sql ex_traverse ex_repos)
         = [lit "No"]).
Proof.
  split; [|split; [|split]].
  - intros T ls1 l ls2 E Hl. unfold normalize_lines.
    rewrite E, filter_app. simpl. rewrite keep_not_header, Hl. simpl.
    apply map_app.
  - intros text rest H. unfold is_header.
    assert (H' : startswith (lit "-" ++ text) (lit "---") = true).
    { destruct text as [|a [|b text]]; cbn in H |- *;
        rewrite ?andb_false_r in H; try discriminate H.
      exact H. }
    rewrite (startswith_app _ _ rest H'), orb_true_r. reflexivity.
  - intros T T' E.
    assert (En : normalize_diff T = normalize_diff T').
    { unfold normalize_diff, normalize_lines. rewrite E. reflexivity. }
    split; [exact En|]. rewrite En. apply discrepancy_no_iff.
    rewrite discrepancy_cond_neq, str_eqb_refl. reflexivity.
  - repeat split; try (vm_compute; reflexivity).
    intros H. vm_compute in H. discriminate H.
Qed.

Lemma header_filter_is_prefix_only_witness :
  splitlines ex_sql_myers
  = [lit "@@ -1,2 +1 @@"] ++ lit "--- old" :: [lit " SELECT 1;"]
  /\ is_header (lit "--- old") = true
  /\ normalize_lines ex_sql_myers = [lit "@@ -1,2 +1 @@"; lit "SELECT 1;"]
  /\ startswith (lit "-- old") (lit "--") = true
  /\ is_header ((lit "-" ++ lit "-- old") ++ []) = true
  /\ filter keep (splitlines ex_sql_myers)
     = filter keep (splitlines ex_sql_hist)
  /\ discrepancy (normalize_diff ex_sql_myers) (normalize_diff ex_sql_hist)
     = lit "No".
Proof.
  destruct header_filter_is_prefix_only as (H1 & H2 & H3 & _).
  split; [vm_compute; reflexivity|]. split; [vm_compute; reflexivity|].
  split.
  { rewrite (H1 ex_sql_myers [lit "@@ -1,2 +1 @@"] (lit "--- old")
               [lit " SELECT 1;"]); vm_compute; reflexivity. }
  split; [vm_compute; reflexivity|]. split.
  { apply H2. vm_compute; reflexivity. }
  split; [vm_compute; reflexivity|].
  apply (H3 ex_sql_myers ex_sql_hist). vm_compute; reflexivity.
Defined.

(* ================================================================== *)
(** ** Category counts and the chart *)
(* ================================================================== *)

Lemma mismatches_insert (df1 df2 : list DfRow) (r : DfRow) :
  cell_is (lit "Yes") (df_Discrepancy r) = true ->
  mismatches (df1 ++ r :: df2) = mismatches df1 ++ r :: mismatches df2.
Proof.
  intros H. unfold mismatches. rewrite filter_app. simpl. rewrite H.
  reflexivity.
Qed.

Lemma mismatches_remove (df1 df2 : list DfRow) :
  mismatches (df1 ++ df2) = mismatches df1 ++ mismatches df2.
Proof. apply filter_app. Qed.

Lemma filter_insert_length {A} (f : A -> bool) (l1 l2 : list A) (x : A) :
  List.length (filter f (l1 ++ x :: l2))
  = List.length (filter f (l1 ++ l2)) + b2n (f x).
Proof.
  rewrite !filter_app, !length_app. simpl.
  destruct (f x); simpl; lia.
Qed.

(** C7.  Each category count is the number of discrepant rows that pass
    that category's own test.  A discrepant row put anywhere into the frame
    raises every count whose test it passes by one and leaves the others as
    they were; a row with the path "test_utils.py" raises both "Source Code"
    and "Test Code". *)
Theorem category_counts_are_independent (df1 df2 : list DfRow) (r : DfRow) :
  cell_is (lit "Yes") (df_Discrepancy r) = true ->
  counts (df1 ++ df2)
  = [ (lit "Source Code", List.length (filter is_source (mismatches (df1 ++ df2))));
      (lit "Test Code", List.length (filter is_test (mismatches (df1 ++ df2))));
      (lit "README", List.length (filter is_readme (mismatches (df1 ++ df2))));
      (lit "LICENSE", List.length (filter is_license (mismatches (df1 ++ df2)))) ]
  /\ counts (df1 ++ r :: df2)
     = [ (lit "Source Code",
          List.length (filter is_source (mismatches (df1 ++ df2)))
          + b2n (is_source r));
         (lit "Test Code",
          List.length (filter is_test (mismatches (df1 ++ df2)))
          + b2n (is_test r));
         (lit "README",
          List.length (filter is_readme (mismatches (df1 ++ df2)))
          + b2n (is_readme r));
         (lit "LICENSE",
          List.length (filter is_license (mismatches (df1 ++ df2)))
          + b2n (is_license r)) ]
  /\ (df_new_file_path r = Some (lit "test_utils.py") ->
      is_source r = true /\ is_test r = true
      /\ is_readme r = false /\ is_license r = false).
Proof.
  intros H. split; [reflexivity|]. split.
  - unfold counts, categories. cbn [map fst snd].
    rewrite (mismatches_insert df1 df2 r H), mismatches_remove.
    rewrite !filter_insert_length. reflexivity.
  - intros E. unfold is_source, is_test, is_readme, is_license.
    rewrite E. repeat split; vm_compute; reflexivity.
Qed.

Lemma category_counts_are_independent_witness :
  counts [ex_df_row "README.md" "Yes"; ex_df_row "x.py" "No"]
  = [(lit "Source Code", 0); (lit "Test Code", 0); (lit "README", 1);
     (lit "LICENSE", 0)]
  /\ counts [ex_df_row "README.md" "Yes"; ex_df_row "test_utils.py" "Yes";
             ex_df_row "x.py" "No"]
     = [(lit "Source Code", 1); (lit "Test Code", 1); (lit "README", 1);
        (lit "LICENSE", 0)].
Proof.
  destruct (@category_counts_are_independent
              [ex_df_row "README.md" "Yes"] [ex_df_row "x.py" "No"]
              (ex_df_row "test_utils.py" "Yes") eq_refl)
    as (H0 & H1 & H2).
  destruct (H2 eq_refl) as (Hs & Ht & Hr & Hl).
  split; [exact H0|].
  etransitivity; [exact H1|]. rewrite Hs, Ht, Hr, Hl. reflexivity.
Defined.

Lemma any_counts_false_iff (df : list DfRow) :
  any_counts df = false <-> Forall (fun cn => snd cn = 0) (counts df).
Proof.
  unfold any_counts. rewrite <- not_true_iff_false, existsb_exists.
  rewrite Forall_forall. split.
  - intros H cn Hin. destruct (snd cn =? 0) eqn:E.
    + apply Nat.eqb_eq, E.
    + exfalso. apply H. exists cn. rewrite E. auto.
  - intros H (cn & Hin & Hn). rewrite (H cn Hin) in Hn. discriminate Hn.
Qed.

Lemma any_counts_true_iff (df : list DfRow) :
  any_counts df = true <-> Exists (fun cn => snd cn <> 0) (counts df).
Proof.
  unfold any_counts. rewrite existsb_exists, Exists_exists.
  split; intros (cn & Hin & Hn); exists cn; (split; [exact Hin|]).
  - intros E. rewrite E in Hn. discriminate Hn.
  - apply negb_true_iff, Nat.eqb_neq, Hn.
Qed.

Lemma count_prints_not_plot (cs : list (str * nat)) :
  forallb (fun e => negb (is_plot_event e))
    (map (fun cn => print (fst cn ++ lit ": " ++ str_of_nat (snd cn))) cs)
  = true.
Proof. induction cs as [|c cs IH]; simpl; [reflexivity|exact IH]. Qed.

Lemma count_prints_In (cs : list (str * nat)) (e : Event) :
  In e (map (fun cn => print (fst cn ++ lit ": " ++ str_of_nat (snd cn))) cs)
  -> exists cn, In cn cs /\ e = print (fst cn ++ lit ": " ++ str_of_nat (snd cn)).
Proof.
  rewrite in_map_iff. intros (cn & <- & H). exists cn. auto.
Qed.

(** C8.  When the four counts are all zero the reporter touches the
    plotting library not at all and ends by printing the message that the
    plot was skipped; a frame without a discrepant row is such a case, and
    the four counts it prints are zero.  When some count is not zero the
    reporter draws the bar chart of the four counts, saves it under
    "mismatch_statistics.png", and the skipped-plot message is not its last
    line. *)
Theorem chart_only_when_a_count_is_nonzero (df : list DfRow) :
  (Forall (fun cn => snd cn = 0) (counts df) ->
     forallb (fun e => negb (is_plot_event e)) (report df) = true
     /\ last (report df) plt_show = print skipped_message)
  /\ (mismatches df = [] ->
      map snd (counts df) = [0; 0; 0; 0]
      /\ forallb (fun e => negb (is_plot_event e)) (report df) = true
      /\ In (print (lit "Source Code: 0")) (report df))
  /\ (Exists (fun cn => snd cn <> 0) (counts df) ->
      In (plt_bar [lit "Source Code"; lit "Test Code"; lit "README";
                   lit "LICENSE"] (map snd (counts df))) (report df)
      /\ In (plt_savefig (lit "mismatch_statistics.png")) (report df)
      /\ last (report df) plt_show
         = print ([LF] ++ lit " Plot saved as mismatch_statistics.png")).
Proof.
  assert (Z0 : any_counts df = false ->
     forallb (fun e => negb (is_plot_event e)) (report df) = true
     /\ last (report df) plt_show = print skipped_message).
  { intros E. unfold report. rewrite E. split.
    - rewrite !forallb_app, count_prints_not_plot. reflexivity.
    - rewrite app_assoc. apply last_last. }
  split; [|split].
  - intros H. apply Z0, any_counts_false_iff, H.
  - intros H.
    assert (E : map snd (counts df) = [0; 0; 0; 0]).
    { unfold counts, categories. rewrite H. reflexivity. }
    assert (A : any_counts df = false).
    { unfold any_counts. unfold counts, categories. rewrite H. reflexivity. }
    split; [exact E|]. split; [apply Z0, A|].
    unfold report, counts, categories. rewrite H.
    right. right. left. reflexivity.
  - intros H. apply any_counts_true_iff in H. unfold report. rewrite H.
    split; [|split].
    + apply in_or_app; right. apply in_or_app; right. left. reflexivity.
    + apply in_or_app; right. apply in_or_app; right.
      do 5 right. left. reflexivity.
    + rewrite app_assoc.
      change [?a; ?b; ?c; ?d; ?e; ?f; ?g; ?h]
        with ([a; b; c; d; e; f; g] ++ [h]).
      rewrite app_assoc. apply last_last.
Qed.

Lemma chart_only_when_a_count_is_nonzero_witness :
  (forallb (fun e => negb (is_plot_event e))
           (report [ex_df_row "a.py" "No"]) = true
   /\ last (report [ex_df_row "a.py" "No"]) plt_show = print skipped_message)
  /\ (map snd (counts [ex_df_row "a.py" "No"]) = [0; 0; 0; 0]
      /\ forallb (fun e => negb (is_plot_event e))
                 (report [ex_df_row "a.py" "No"]) = true
      /\ In (print (lit "Source Code: 0")) (report [ex_df_row "a.py" "No"]))
  /\ (In (plt_bar [lit "Source Code"; lit "Test Code"; lit "README";
                   lit "LICENSE"] [1; 0; 0; 0])
         (report [ex_df_row "a.py" "Yes"])
      /\ In (plt_savefig (lit "mismatch_statistics.png"))
            (report [ex_df_row "a.py" "Yes"])
      /\ last (report [ex_df_row "a.py" "Yes"]) plt_show
         = print ([LF] ++ lit " Plot saved as mismatch_statistics.png")).
Proof.
  split.
  - apply (proj1 (chart_only_when_a_count_is_nonzero [ex_df_row "a.py" "No"])).
    vm_compute. repeat constructor.
  - split.
    { apply (proj1 (proj2 (chart_only_when_a_count_is_nonzero
                             [ex_df_row "a.py" "No"]))).
      vm_compute. reflexivity. }
    apply (proj2 (proj2 (chart_only_when_a_count_is_nonzero
                           [ex_df_row "a.py" "Yes"]))).
    vm_compute. left. simpl. discriminate.
Defined.

(* ================================================================== *)
(** ** More on the normaliser *)
(* ================================================================== *)

Lemma splitlines_break_head (c : char) (r : str) :
  is_linebreak c = true -> exists ls, splitlines (c :: r) = [] :: ls.
Proof.
  intros H. simpl. rewrite H. destruct r as [|c' r']; [eauto|].
  destruct ((c =? CR) && (c' =? LF))%N; eauto.
Qed.

Lemma splitlines_line_then (l : str) (c : char) (r : str) :
  no_linebreak l -> is_linebreak c = true ->
  splitlines (l ++ c :: r) = l :: tl (splitlines (c :: r)).
Proof.
  intros Hl Hc. induction Hl as [|a l Ha Hl IH]; simpl app.
  - destruct (splitlines_break_head c r Hc) as (ls & ->). reflexivity.
  - rewrite splitlines_cons_plain by exact Ha. rewrite IH. reflexivity.
Qed.

Lemma splitlines_break_cons (c : char) (r : str) :
  is_linebreak c = true -> (c = CR -> hd 0%N r <> LF) ->
  splitlines (c :: r) = [] :: splitlines r.
Proof.
  intros H Hr. simpl. rewrite H. destruct r as [|c' r']; [reflexivity|].
  destruct ((c =? CR) && (c' =? LF))%N eqn:E; [|reflexivity].
  apply andb_true_iff in E as [E1 E2].
  apply N.eqb_eq in E1, E2. exfalso. apply (Hr E1). exact E2.
Qed.

Lemma join_head_not_LF (c : char) (ls : list str) :
  Forall no_linebreak ls -> c <> LF -> hd 0%N (join [c] ls) <> LF.
Proof.
  intros H Hc. destruct H as [|l ls Hl Hls]; [discriminate|].
  assert (Hh : forall r, hd 0%N (l ++ c :: r) <> LF).
  { intros r. destruct Hl as [|a l Ha _]; [exact Hc|].
    simpl. intros ->. discriminate Ha. }
  destruct ls as [|l2 ls'].
  - simpl. destruct Hl as [|a l Ha _]; [discriminate|].
    simpl. intros ->. discriminate Ha.
  - rewrite join_cons2. apply Hh.
Qed.

(** Lines joined by any one terminator split back as lines joined by LF
    do. *)
Lemma splitlines_join_any (sep : str) (ls : list str) :
  Forall no_linebreak ls ->
  (sep = [CR; LF] \/ exists c, sep = [c] /\ is_linebreak c = true) ->
  splitlines (join sep ls) = resplit ls.
Proof.
  intros H Hsep. rewrite <- (splitlines_join H).
  induction H as [|l ls Hl Hls IH]; [reflexivity|].
  destruct ls as [|l2 ls']; [reflexivity|].
  rewrite !join_cons2.
  change ([LF] ++ join [LF] (l2 :: ls')) with (LF :: join [LF] (l2 :: ls')).
  rewrite (splitlines_app_LF _ Hl), <- IH.
  destruct Hsep as [->|(c & -> & Hc)].
  - change ([CR; LF] ++ ?r) with (CR :: LF :: r).
    rewrite splitlines_line_then by (exact Hl || reflexivity). reflexivity.
  - change ([c] ++ ?r) with (c :: r).
    rewrite splitlines_line_then by assumption.
    rewrite splitlines_break_cons; [reflexivity|exact Hc|].
    intros ->. apply join_head_not_LF; [exact Hls|discriminate].
Qed.

(** X1.  The terminator does not matter: lines joined by CR LF, by CR or by
    any other single line-break character normalise to the same text as
    the same lines joined by LF. *)
Theorem normalize_diff_any_terminator (sep : str) (ls : list str) :
  Forall no_linebreak ls ->
  (sep = [CR; LF] \/ exists c, sep = [c] /\ is_linebreak c = true) ->
  normalize_diff (join sep ls) = normalize_diff (join [LF] ls).
Proof.
  intros H Hsep. unfold normalize_diff, normalize_lines.
  rewrite (splitlines_join_any H Hsep), (splitlines_join H). reflexivity.
Qed.

Lemma normalize_diff_any_terminator_witness :
  normalize_diff (join [CR; LF] [lit "@@ -1 +1 @@"; lit "-x"; lit "+y"])
  = normalize_diff (join [LF] [lit "@@ -1 +1 @@"; lit "-x"; lit "+y"]).
Proof.
  apply normalize_diff_any_terminator.
  - repeat constructor.
  - left. reflexivity.
Defined.

Lemma join_only_LF (ls : list str) :
  Forall no_linebreak ls ->
  Forall (fun c => is_linebreak c = true -> c = LF) (join [LF] ls).
Proof.
  assert (Hline : forall l, no_linebreak l ->
            Forall (fun c => is_linebreak c = true -> c = LF) l).
  { intros l Hl. eapply Forall_impl; [|exact Hl].
    intros a Ha Hb. congruence. }
  induction 1 as [|l ls Hl Hls IH]; [constructor|].
  destruct ls as [|l2 ls']; [apply Hline, Hl|].
  rewrite join_cons2. apply Forall_app. split; [apply Hline, Hl|].
  constructor; [reflexivity|exact IH].
Qed.

(** X2.  The only line-break character a normalised text holds is LF: no
    carriage return, form feed or Unicode line separator survives. *)
Theorem normalize_diff_breaks_are_LF (T : str) :
  Forall (fun c => is_linebreak c = true -> c = LF) (normalize_diff T).
Proof. apply join_only_LF, normalize_lines_no_linebreak. Qed.

(** *** Lengths *)

Lemma join_length (ls : list str) :
  List.length (join [LF] ls)
  = list_sum (map (@List.length char) ls) + pred (List.length ls).
Proof.
  induction ls as [|l ls IH]; [reflexivity|].
  destruct ls as [|l2 ls'].
  - simpl. lia.
  - rewrite join_cons2, !length_app, IH. simpl. lia.
Qed.

Lemma splitlines_weight (s : str) :
  list_sum (map (@List.length char) (splitlines s))
  + List.length (splitlines s) <= S (List.length s).
Proof.
  induction s as [|c|c c' s IH IH'] using str_ind2.
  - simpl. lia.
  - simpl. destruct (is_linebreak c); simpl; lia.
  - destruct (is_linebreak c) eqn:E.
    + simpl splitlines at 1 2. rewrite E.
      destruct ((c =? CR) && (c' =? LF))%N; simpl in *; lia.
    + rewrite splitlines_cons_plain by exact E.
      destruct (splitlines (c' :: s)) as [|l ls]; simpl in *; lia.
Qed.

Lemma lstrip_length (s : str) : List.length (lstrip s) <= List.length s.
Proof.
  destruct (lstrip_split s) as (p & E & _).
  rewrite E at 2. rewrite length_app. lia.
Qed.

Lemma strip_length (s : str) : List.length (strip s) <= List.length s.
Proof.
  unfold strip, rstrip. rewrite length_rev.
  etransitivity; [apply lstrip_length|]. rewrite length_rev.
  apply lstrip_length.
Qed.

Lemma normalize_lines_weight (ls : list str) :
  list_sum (map (@List.length char) (map strip (filter keep ls)))
  <= list_sum (map (@List.length char) ls)
  /\ List.length (map strip (filter keep ls)) <= List.length ls.
Proof.
  induction ls as [|l ls [IH1 IH2]]; simpl; [lia|].
  pose proof (strip_length l).
  destruct (keep l); simpl; lia.
Qed.

(** X3.  Normalising never makes a text longer. *)
Theorem normalize_diff_not_longer (T : str) :
  List.length (normalize_diff T) <= List.length T.
Proof.
  unfold normalize_diff, normalize_lines. rewrite join_length.
  pose proof (normalize_lines_weight (splitlines T)) as [H1 H2].
  pose proof (splitlines_weight T) as H3.
  assert (H4 : List.length (splitlines T) = 0 ->
               list_sum (map (@List.length char) (splitlines T)) = 0).
  { destruct (splitlines T); [reflexivity|discriminate]. }
  lia.
Qed.

(** *** When two texts get "No" *)

Lemma no_linebreak_not_app_LF (l m r : str) :
  no_linebreak l -> l <> m ++ LF :: r.
Proof.
  intros Hl E. rewrite E in Hl. apply Forall_app in Hl as [_ Hl].
  inversion Hl as [|? ? Hc _]. discriminate Hc.
Qed.

Lemma app_LF_inj (l m r1 r2 : str) :
  no_linebreak l -> no_linebreak m ->
  l ++ LF :: r1 = m ++ LF :: r2 -> l = m /\ r1 = r2.
Proof.
  intros Hl; revert m. induction Hl as [|a l Ha Hl IH]; intros m Hm E.
  - destruct m as [|b m]; simpl in E.
    + injection E as ->. auto.
    + injection E as <- _. inversion Hm as [|? ? Hb _]. discriminate Hb.
  - destruct m as [|b m]; simpl in E.
    + injection E as -> _. discriminate Ha.
    + injection E as -> E. inversion Hm as [|? ? _ Hm']; subst.
      destruct (IH m Hm' E) as [-> ->]. auto.
Qed.

Lemma join_inj_nonempty (a b : list str) :
  Forall no_linebreak a -> Forall no_linebreak b ->
  a <> [] -> b <> [] ->
  join [LF] a = join [LF] b -> a = b.
Proof.
  intros Ha; revert b. induction Ha as [|l a Hl Ha IH]; intros b Hb Na Nb E;
    [congruence|].
  destruct Hb as [|m b Hm Hb]; [congruence|].
  destruct a as [|l2 a'], b as [|m2 b'].
  - simpl in E. congruence.
  - rewrite join_cons2 in E. simpl join at 1 in E.
    exfalso. exact (@no_linebreak_not_app_LF _ _ _ Hl E).
  - rewrite join_cons2 in E. simpl join at 2 in E.
    exfalso. symmetry in E. exact (@no_linebreak_not_app_LF _ _ _ Hm E).
  - rewrite !join_cons2 in E.
    destruct (@app_LF_inj _ _ _ _ Hl Hm E) as [-> E'].
    f_equal. apply IH; [exact Hb|discriminate|discriminate|exact E'].
Qed.

Lemma join_nil_iff (ls : list str) :
  join [LF] ls = [] <-> ls = [] \/ ls = [[]].
Proof.
  split.
  - destruct ls as [|l [|l2 ls']]; simpl; auto.
    + intros ->. auto.
    + intros E. apply app_eq_nil in E as [_ E]. discriminate E.
  - intros [->| ->]; reflexivity.
Qed.

(** X4.  Two raw texts get "No" exactly when their retained, stripped
    lines are the same lists, the only exception being that no line at all
    and one single empty line are not told apart. *)
Theorem verdict_No_iff_same_lines (A B : str) :
  discrepancy (normalize_diff A) (normalize_diff B) = lit "No"
  <-> (normalize_lines A = normalize_lines B
       \/ (normalize_lines A = [] /\ normalize_lines B = [[]])
       \/ (normalize_lines A = [[]] /\ normalize_lines B = [])).
Proof.
  rewrite discrepancy_no_iff, discrepancy_cond_neq, negb_false_iff, str_eqb_eq.
  unfold normalize_diff.
  pose proof (normalize_lines_no_linebreak A) as HA.
  pose proof (normalize_lines_no_linebreak B) as HB.
  destruct (normalize_lines A) as [|la a] eqn:EA.
  - simpl join at 1. split.
    + intros E. symmetry in E. apply join_nil_iff in E as [->| ->]; auto.
    + intros [<-|[[_ ->]|[E _]]]; [reflexivity|reflexivity|discriminate E].
  - destruct (normalize_lines B) as [|lb b] eqn:EB.
    + simpl join at 2. split.
      * intros E. apply join_nil_iff in E as [E|E]; [discriminate E|].
        rewrite E. auto.
      * intros [E|[[E _]|[-> _]]]; [discriminate E|discriminate E|reflexivity].
    + split.
      * intros E. left. apply join_inj_nonempty; auto; discriminate.
      * intros [->|[[E _]|[_ E]]]; [reflexivity|discriminate E|discriminate E].
Qed.

Lemma str_eqb_sym (a b : str) : str_eqb a b = str_eqb b a.
Proof.
  revert b; induction a as [|x a IH]; intros [|y b]; simpl; try reflexivity.
  rewrite IH, N.eqb_sym. reflexivity.
Qed.

(** X5.  The verdict does not depend on which of the two texts comes
    first. *)
Theorem discrepancy_symmetric (a b : str) :
  discrepancy a b = discrepancy b a.
Proof.
  unfold discrepancy. rewrite !discrepancy_cond_neq, str_eqb_sym.
  reflexivity.
Qed.

(** *** White space at the end of a line *)

Lemma lstrip_spaces_app (p s : str) :
  Forall (fun c => is_space c = true) p -> lstrip (p ++ s) = lstrip s.
Proof.
  induction 1 as [|c p Hc Hp IH]; simpl; [reflexivity|].
  rewrite Hc. exact IH.
Qed.

Lemma rstrip_app_spaces (s w : str) :
  Forall (fun c => is_space c = true) w -> rstrip (s ++ w) = rstrip s.
Proof.
  intros Hw. unfold rstrip. rewrite rev_app_distr.
  rewrite lstrip_spaces_app by (apply Forall_rev, Hw). reflexivity.
Qed.

Lemma lstrip_app_spaces (s w : str) :
  Forall (fun c => is_space c = true) w ->
  exists w', lstrip (s ++ w) = lstrip s ++ w'
             /\ Forall (fun c => is_space c = true) w'.
Proof.
  intros Hw. induction s as [|c s IH]; simpl.
  - exists []. split; [|constructor].
    rewrite <- (app_nil_r w). rewrite lstrip_spaces_app by exact Hw.
    reflexivity.
  - destruct (is_space c); [exact IH|]. exists w. auto.
Qed.

Lemma strip_app_spaces (s w : str) :
  Forall (fun c => is_space c = true) w -> strip (s ++ w) = strip s.
Proof.
  intros Hw. unfold strip.
  destruct (lstrip_app_spaces s Hw) as (w' & -> & Hw').
  apply rstrip_app_spaces, Hw'.
Qed.

Lemma startswith_app_spaces (s w p : str) :
  Forall (fun c => is_space c = true) w ->
  Forall (fun c => is_space c = false) p ->
  p <> [] ->
  startswith (s ++ w) p = startswith s p.
Proof.
  intros Hw Hp. revert s. induction Hp as [|c p Hc Hp IH]; intros s Hne;
    [congruence|].
  destruct s as [|d s]; simpl.
  - destruct Hw as [|e w He _]; [reflexivity|]. simpl.
    destruct (N.eqb_spec e c) as [->|_]; [congruence|reflexivity].
  - destruct p as [|c2 p'].
    + simpl. reflexivity.
    + rewrite IH by discriminate. reflexivity.
Qed.

Lemma keep_app_spaces (s w : str) :
  Forall (fun c => is_space c = true) w -> keep (s ++ w) = keep s.
Proof.
  intros Hw. unfold keep.
  rewrite !(startswith_app_spaces s Hw); try discriminate;
    try reflexivity; vm_compute; repeat constructor.
Qed.

(** X6.  White space at the end of lines is not seen: if the lines of [B]
    are those of [A], each followed by some white space, both normalise to
    the same text and the verdict is "No". *)
Theorem trailing_space_is_ignored (A B : str) :
  Forall2 (fun a b => exists w, b = a ++ w
                                /\ Forall (fun c => is_space c = true) w)
          (splitlines A) (splitlines B) ->
  normalize_diff A = normalize_diff B
  /\ discrepancy (normalize_diff A) (normalize_diff B) = lit "No".
Proof.
  intros H.
  assert (E : normalize_lines A = normalize_lines B).
  { unfold normalize_lines.
    induction H as [|a b la lb (w & -> & Hw) _ IH]; [reflexivity|].
    simpl. rewrite (keep_app_spaces a Hw).
    destruct (keep a); simpl; rewrite ?(strip_app_spaces a Hw), IH;
      reflexivity. }
  unfold normalize_diff. rewrite E. split; [reflexivity|].
  apply discrepancy_no_iff.
  rewrite discrepancy_cond_neq, str_eqb_refl. reflexivity.
Qed.

Lemma trailing_space_is_ignored_witness :
  normalize_diff (lit "-x" ++ [LF] ++ lit "+y")
  = normalize_diff (lit "-x  " ++ [LF] ++ lit "+y" ++ [9%N])
  /\ discrepancy (normalize_diff (lit "-x" ++ [LF] ++ lit "+y"))
                 (normalize_diff (lit "-x  " ++ [LF] ++ lit "+y" ++ [9%N]))
     = lit "No".
Proof.
  apply trailing_space_is_ignored. vm_compute.
  constructor; [exists (lit "  "); split; [reflexivity|repeat constructor]|].
  constructor; [exists [9%N]; split; [reflexivity|repeat constructor]|].
  constructor.
Defined.

(* ================================================================== *)
(** ** More on the pipeline *)
(* ================================================================== *)

Lemma os_path_join_BASE_DIR (name : str) :
  os_path_join BASE_DIR name
  = if startswith name (lit "/") then name else lit "repos/" ++ name.
Proof.
  unfold os_path_join. destruct (startswith name (lit "/")); reflexivity.
Qed.

(** X7.  [os.path.join(BASE_DIR, name)] is injective: two different
    repository names give two different [repo_path] strings, also when a
    name is absolute and replaces the base directory.  (This is about the
    strings handed to git and to the traversal, not about whether two
    strings name one directory on disk.) *)
Theorem repo_paths_distinct (n1 n2 : str) :
  n1 <> n2 -> os_path_join BASE_DIR n1 <> os_path_join BASE_DIR n2.
Proof.
  intros Hne. rewrite !os_path_join_BASE_DIR.
  destruct (startswith n1 (lit "/")) eqn:E1,
           (startswith n2 (lit "/")) eqn:E2; intros E.
  - exact (Hne E).
  - subst n1. discriminate E1.
  - subst n2. discriminate E2.
  - apply app_inv_head in E. exact (Hne E).
Qed.

Lemma repo_paths_distinct_witness :
  os_path_join BASE_DIR (lit "MaxKB") <> os_path_join BASE_DIR (lit "manim").
Proof.
  apply repo_paths_distinct. discriminate.
Defined.

(** X8.  Only the first parent of a commit is looked at: a merge commit
    gives the rows it would give with its first parent alone. *)
Theorem only_first_parent_is_used rgd name rp w c p rest :
  parents c = p :: rest ->
  process_commit rgd name rp w c
  = process_commit rgd name rp w
      {| hash := hash c; parents := [p]; msg := msg c;
         modified_files := modified_files c |}.
Proof.
  intros Hp. rewrite !process_commit_app. f_equal.
  unfold commit_rows. cbn [modified_files].
  apply flat_map_ext. intros m.
  unfold mod_rows, process_mod. cbn [parents hash msg]. rewrite Hp.
  reflexivity.
Qed.

Lemma only_first_parent_is_used_witness :
  process_commit ex_git_differs (lit "demo") (lit "repos/demo") [] ex_merge
  = process_commit ex_git_differs (lit "demo") (lit "repos/demo") []
      {| hash := lit "c2"; parents := [lit "c1"]; msg := lit "merge";
         modified_files := [ex_mod_a] |}.
Proof.
  apply (@only_first_parent_is_used ex_git_differs (lit "demo")
           (lit "repos/demo") [] ex_merge (lit "c1") [lit "b7"]).
  reflexivity.
Defined.

(** X9.  The commit message of every row is stored stripped: it neither
    starts nor ends with white space, and stripping it again changes
    nothing. *)
Theorem row_message_is_stripped rgd trav rs r :
  In r (generate_dataset rgd trav rs) ->
  strip (commit_message r) = commit_message r
  /\ head_kept (commit_message r)
  /\ head_kept (rev (commit_message r)).
Proof.
  intros H. apply dataset_row_inv in H as (e & c & m & _ & _ & _ & H).
  apply mod_rows_inv in H as (op & np & parent & rest & _ & _ & _ & ->).
  cbn [commit_message].
  split; [apply strip_idempotent|].
  split; [apply strip_head_kept|apply strip_last_kept].
Qed.

Lemma row_message_is_stripped_witness :
  strip (lit "edit") = lit "edit"
  /\ head_kept (lit "edit") /\ head_kept (rev (lit "edit")).
Proof.
  apply (@row_message_is_stripped ex_git_differs ex_traverse ex_repos
           (ex_row ex_text_xyz (lit "Yes"))).
  vm_compute. left. reflexivity.
Defined.

(** X10.  The verdict column holds nothing but "Yes" and "No". *)
Theorem row_verdict_is_Yes_or_No rgd trav rs r :
  In r (generate_dataset rgd trav rs) ->
  Discrepancy r = lit "Yes" \/ Discrepancy r = lit "No".
Proof.
  intros H. apply dataset_row_inv in H as (e & c & m & _ & _ & _ & H).
  apply mod_rows_inv in H as (op & np & parent & rest & _ & _ & _ & ->).
  cbn [Discrepancy]. unfold discrepancy.
  destruct (discrepancy_cond _ _); auto.
Qed.

Lemma row_verdict_is_Yes_or_No_witness :
  Discrepancy (ex_row ex_text_xyz (lit "Yes")) = lit "Yes"
  \/ Discrepancy (ex_row ex_text_xyz (lit "Yes")) = lit "No".
Proof.
  apply (@row_verdict_is_Yes_or_No ex_git_differs ex_traverse ex_repos).
  vm_compute. left. reflexivity.
Defined.

(** X11.  A repository whose cap is zero or negative adds no row. *)
Theorem nonpositive_cap_adds_nothing rgd trav w (e : str * (str * Z)) :
  (snd (snd e) <= 0)%Z ->
  process_repo rgd trav w e = w.
Proof.
  intros H. rewrite process_repo_app. unfold repo_rows, processed_commits.
  replace (Z.to_nat (snd (snd e))) with 0 by lia.
  simpl. apply app_nil_r.
Qed.

Lemma nonpositive_cap_adds_nothing_witness :
  process_repo ex_git_differs ex_traverse []
               (lit "demo", (lit "https://example/demo.git", (-3)%Z))
  = [].
Proof.
  apply nonpositive_cap_adds_nothing. simpl. lia.
Defined.

(** X12.  The writer only appends.  Started on a file that already holds
    the rows [w], the loops leave [w] in place and put after it exactly
    what they write on an empty file; hence the dataset of two
    configurations in a row is the two datasets in a row. *)
Theorem writer_only_appends rgd trav :
  (forall rs w,
      fold_left (process_repo rgd trav) rs w
      = w ++ generate_dataset rgd trav rs)
  /\ (forall name rp cap cs k w,
        snd (commits_loop rgd name rp cap cs k w)
        = w ++ snd (commits_loop rgd name rp cap cs k []))
  /\ (forall rs1 rs2,
        generate_dataset rgd trav (rs1 ++ rs2)
        = generate_dataset rgd trav rs1 ++ generate_dataset rgd trav rs2).
Proof.
  assert (H : forall rs w, fold_left (process_repo rgd trav) rs w
                           = w ++ flat_map (repo_rows rgd trav) rs).
  { induction rs as [|e rs IH]; intros w; simpl.
    - rewrite app_nil_r; reflexivity.
    - rewrite IH, process_repo_app, <- app_assoc. reflexivity. }
  split; [|split].
  - intros rs w. rewrite generate_dataset_flat. apply H.
  - intros. rewrite !commits_loop_spec. reflexivity.
  - intros. rewrite !generate_dataset_flat. apply flat_map_app.
Qed.

(** X13.  What git is asked for a row.  With the git client of the
    source, the two raw texts of a row are the outputs of two commands
    that agree in their first ten arguments: a diff in the working
    directory of the row's repository, from the row's parent to the row's
    commit, of the new path, with the two white-space options; they end
    in the selector of the Myers and of the histogram algorithm. *)
Theorem row_texts_come_from_two_commands proc trav rs r :
  In r (generate_dataset (run_git_diff proc) trav rs) ->
  exists common,
    common = [lit "git"; lit "-C"; os_path_join BASE_DIR (repo r);
              lit "diff"; parent_commit_SHA r; commit_SHA r;
              lit "--"; new_file_path r;
              lit "--ignore-blank-lines"; lit "--ignore-space-change"]
    /\ diff_myers r = proc (common ++ [lit "--diff-algorithm=myers"])
    /\ diff_hist r = proc (common ++ [lit "--diff-algorithm=histogram"]).
Proof.
  intros H. apply dataset_row_inv in H as (e & c & m & _ & _ & _ & H).
  apply mod_rows_inv in H as (op & np & parent & rest & _ & _ & _ & ->).
  eexists. split; [reflexivity|]. split; reflexivity.
Qed.

Lemma row_texts_come_from_two_commands_witness :
  generate_dataset (run_git_diff ex_stdout) ex_traverse ex_repos
  = [ex_row ex_text_xyz (lit "Yes")]
  /\ exists common,
      common = [lit "git"; lit "-C"; lit "repos/demo"; lit "diff";
                lit "c0"; lit "c1"; lit "--"; lit "a.py";
                lit "--ignore-blank-lines"; lit "--ignore-space-change"]
      /\ ex_text_xy = ex_stdout (common ++ [lit "--diff-algorithm=myers"])
      /\ ex_text_xyz
         = ex_stdout (common ++ [lit "--diff-algorithm=histogram"]).
Proof.
  split; [vm_compute; reflexivity|].
  apply (@row_texts_come_from_two_commands ex_stdout ex_traverse ex_repos
           (ex_row ex_text_xyz (lit "Yes"))).
  vm_compute. left. reflexivity.
Defined.

(* ================================================================== *)
(** ** Cloning or pulling *)
(* ================================================================== *)

Section SetupFacts.

Variable FS : Type.
Variable path_exists : FS -> str -> bool.
Variable makedirs : str -> FS -> FS.
Variable subprocess_run : list str -> FS -> FS.

Lemma setup_repo_events (fs : FS) (out : list SetupEvent)
    (entry : str * (str * Z)) :
  exists fs' evs,
    setup_repo path_exists subprocess_run (fs, out) entry = (fs', out ++ evs)
    /\ setup_events_for entry evs.
Proof.
  destruct entry as (name & url & cap). unfold setup_repo, setup_events_for.
  destruct (negb (path_exists fs (os_path_join BASE_DIR name)));
    do 2 eexists; (split; [reflexivity|]); cbn [fst snd]; auto.
Qed.

Lemma setup_events_cmd (entry : str * (str * Z)) (evs : list SetupEvent) :
  setup_events_for entry evs ->
  exists cmd, commands_of evs = [cmd] /\ setup_cmd_for entry cmd
              /\ List.length evs = 2.
Proof.
  unfold setup_events_for, setup_cmd_for.
  intros [->| ->]; eexists; (split; [reflexivity|]); auto.
Qed.

Lemma commands_of_app (a b : list SetupEvent) :
  commands_of (a ++ b) = commands_of a ++ commands_of b.
Proof. apply flat_map_app. Qed.

Lemma setup_loop_events (rs : repos_t) (fs : FS) (out : list SetupEvent) :
  exists fs' blocks,
    fold_left (setup_repo path_exists subprocess_run) rs (fs, out)
    = (fs', out ++ List.concat blocks)
    /\ Forall2 setup_events_for rs blocks.
Proof.
  revert fs out. induction rs as [|e rs IH]; intros fs out.
  - exists fs, []. simpl. rewrite app_nil_r. split; constructor.
  - destruct (setup_repo_events fs out e) as (fs1 & evs & E & He).
    destruct (IH fs1 (out ++ evs)) as (fs' & blocks & E' & HF).
    exists fs', (evs :: blocks).
    cbn [fold_left List.concat]. rewrite E, E', <- app_assoc.
    split; [reflexivity|constructor; assumption].
Qed.

Lemma setup_blocks_commands (rs : repos_t) (blocks : list (list SetupEvent)) :
  Forall2 setup_events_for rs blocks ->
  Forall2 setup_cmd_for rs (commands_of (List.concat blocks))
  /\ List.length (List.concat blocks) = 2 * List.length rs.
Proof.
  induction 1 as [|e evs rs blocks He _ [IH1 IH2]]; simpl.
  - split; [constructor|reflexivity].
  - destruct (setup_events_cmd He) as (cmd & Ec & Hc & Hl).
    rewrite commands_of_app, Ec, length_app, Hl, IH2. simpl.
    split; [constructor; assumption|lia].
Qed.

(** X14.  What the set-up loop prints and runs is, repository by
    repository in the order of the configuration, one printed line
    followed at once by one git process: the line "Cloning <name>..." and
    the clone of the repository's URL into its working directory, or the
    line "Repository <name> already exists, pulling latest changes..." and
    a pull in that directory; never both for one repository, and nothing
    else. *)
Theorem setup_one_command_per_repo (rs : repos_t) (fs : FS) :
  (exists blocks,
      snd (setup path_exists makedirs subprocess_run rs fs) = List.concat blocks
      /\ Forall2 setup_events_for rs blocks)
  /\ Forall2 setup_cmd_for rs
       (commands_of (snd (setup path_exists makedirs subprocess_run rs fs)))
  /\ List.length (snd (setup path_exists makedirs subprocess_run rs fs))
     = 2 * List.length rs.
Proof.
  unfold setup.
  destruct (setup_loop_events rs (makedirs BASE_DIR fs) [])
    as (fs' & blocks & -> & HF).
  cbn [snd app]. split; [exists blocks; auto|].
  apply setup_blocks_commands, HF.
Qed.

End SetupFacts.

(* ================================================================== *)
(** ** More on the category counts *)
(* ================================================================== *)

Lemma counts_of_mismatches (df df' : list DfRow) :
  mismatches df = mismatches df' -> counts df = counts df'.
Proof. intros E. unfold counts, categories. rewrite E. reflexivity. Qed.

(** X15.  A row whose verdict cell is anything but the exact text "Yes"
    (another text, or a missing cell) changes no count, wherever it
    stands. *)
Theorem other_verdicts_are_not_counted (df1 df2 : list DfRow) (r : DfRow) :
  cell_is (lit "Yes") (df_Discrepancy r) = false ->
  counts (df1 ++ r :: df2) = counts (df1 ++ df2).
Proof.
  intros H. apply counts_of_mismatches. unfold mismatches.
  rewrite !filter_app. simpl. rewrite H. reflexivity.
Qed.

Lemma other_verdicts_are_not_counted_witness :
  counts ([ex_df_row "a.py" "Yes"] ++ ex_df_row "test_b.py" "yes"
          :: [{| df_new_file_path := Some (lit "c.py");
                 df_Discrepancy := None |}])
  = counts [ex_df_row "a.py" "Yes";
            {| df_new_file_path := Some (lit "c.py");
               df_Discrepancy := None |}].
Proof.
  apply (@other_verdicts_are_not_counted
           [ex_df_row "a.py" "Yes"]
           [{| df_new_file_path := Some (lit "c.py");
               df_Discrepancy := None |}]
           (ex_df_row "test_b.py" "yes")).
  reflexivity.
Defined.

(** X16.  A discrepant row whose path cell is missing is counted in no
    category. *)
Theorem missing_path_is_not_counted (df1 df2 : list DfRow) (r : DfRow) :
  df_new_file_path r = None ->
  counts (df1 ++ r :: df2) = counts (df1 ++ df2).
Proof.
  intros H.
  assert (F : forall f : DfRow -> bool, f r = false ->
            filter f (mismatches (df1 ++ r :: df2))
            = filter f (mismatches (df1 ++ df2))).
  { intros f Hf. unfold mismatches. rewrite !filter_app. simpl.
    destruct (cell_is _ _); [|reflexivity].
    simpl. rewrite Hf. reflexivity. }
  unfold counts, categories. cbn [map fst snd].
  rewrite !F; try reflexivity;
    unfold is_source, is_test, is_readme, is_license; rewrite H; reflexivity.
Qed.

Lemma missing_path_is_not_counted_witness :
  counts ([ex_df_row "a.py" "Yes"]
          ++ {| df_new_file_path := None; df_Discrepancy := Some (lit "Yes") |}
          :: [])
  = counts [ex_df_row "a.py" "Yes"].
Proof.
  apply (@missing_path_is_not_counted [ex_df_row "a.py" "Yes"] []
           {| df_new_file_path := None; df_Discrepancy := Some (lit "Yes") |}).
  reflexivity.
Defined.

Lemma filter_Permutation {A} (f : A -> bool) (l l' : list A) :
  Permutation l l' -> Permutation (filter f l) (filter f l').
Proof.
  induction 1 as [|x l l' _ IH|x y l|l l' l'' _ IH1 _ IH2]; simpl.
  - constructor.
  - destruct (f x); [constructor|]; exact IH.
  - destruct (f x), (f y); try reflexivity. constructor.
  - etransitivity; eassumption.
Qed.

(** X17.  The counts do not depend on the order of the rows. *)
Theorem counts_ignore_row_order (df df' : list DfRow) :
  Permutation df df' -> counts df = counts df'.
Proof.
  intros H. unfold counts, categories. cbn [map fst snd].
  assert (L : forall f, List.length (filter f (mismatches df))
                        = List.length (filter f (mismatches df'))).
  { intros f. apply Permutation_length.
    apply filter_Permutation, filter_Permutation, H. }
  rewrite !L. reflexivity.
Qed.

Lemma counts_ignore_row_order_witness :
  counts [ex_df_row "a.py" "Yes"; ex_df_row "README" "Yes"]
  = counts [ex_df_row "README" "Yes"; ex_df_row "a.py" "Yes"].
Proof.
  apply counts_ignore_row_order. apply perm_swap.
Defined.

(** X18.  The counts of two frames put together are the sums of their
    counts, category by category, and the category names stay the four
    fixed ones in their order. *)
Theorem counts_add_up (df1 df2 : list DfRow) :
  map snd (counts (df1 ++ df2))
  = map (fun p => fst p + snd p)
        (combine (map snd (counts df1)) (map snd (counts df2)))
  /\ map fst (counts (df1 ++ df2))
     = [lit "Source Code"; lit "Test Code"; lit "README"; lit "LICENSE"].
Proof.
  split; [|reflexivity].
  unfold counts, categories. cbn [map fst snd combine].
  rewrite mismatches_remove, !filter_app, !length_app. reflexivity.
Qed.

(** X19.  No count exceeds the number of discrepant rows, which does not
    exceed the number of rows. *)
Theorem counts_are_bounded (df : list DfRow) :
  Forall (fun cn => snd cn <= List.length (mismatches df)) (counts df)
  /\ List.length (mismatches df) <= List.length df.
Proof.
  split; [|apply filter_length_le].
  unfold counts, categories. cbn [map fst snd].
  repeat constructor; apply filter_length_le.
Qed.

(** *** The case-insensitive search *)

Lemma ci_prefix_iff (s pat : str) :
  ci_prefix s pat = true <->
  exists m b, s = m ++ b /\ Forall2 (fun p c => ci_char p c = true) pat m.
Proof.
  revert s; induction pat as [|p pat IH]; intros s; simpl.
  - split; [|reflexivity]. intros _. exists [], s. split; [reflexivity|constructor].
  - destruct s as [|c s].
    + split; [discriminate|]. intros (m & b & E & F).
      inversion F; subst. discriminate E.
    + rewrite andb_true_iff, IH. split.
      * intros (Hc & m & b & -> & F). exists (c :: m), b.
        split; [reflexivity|constructor; assumption].
      * intros (m & b & E & F). inversion F as [|? c' ? m' Hc F']; subst.
        simpl in E. injection E as -> ->. split; [exact Hc|eauto].
Qed.

Lemma ci_contains_unfold (s pat : str) :
  ci_contains s pat
  = ci_prefix s pat
    || match s with [] => false | _ :: s' => ci_contains s' pat end.
Proof. destruct s; reflexivity. Qed.

Lemma ci_contains_iff (s pat : str) :
  ci_contains s pat = true <->
  exists a m b, s = a ++ m ++ b
                /\ Forall2 (fun p c => ci_char p c = true) pat m.
Proof.
  induction s as [|c s IH]; rewrite ci_contains_unfold, orb_true_iff.
  - rewrite ci_prefix_iff. split.
    + intros [(m & b & E & F)|H]; [|discriminate H].
      exists [], m, b. auto.
    + intros (a & m & b & E & F). left.
      destruct a; [|discriminate E]. exists m, b. auto.
  - rewrite IH, ci_prefix_iff. split.
    + intros [(m & b & E & F)|(a & m & b & E & F)].
      * exists [], m, b. auto.
      * exists (c :: a), m, b. rewrite E. auto.
    + intros (a & m & b & E & F). destruct a as [|c' a].
      * left. exists m, b. auto.
      * right. simpl in E. injection E as -> ->. exists a, m, b. auto.
Qed.

(** X20.  The search finds the pattern exactly when the subject holds, at
    some place, a run of characters that match the pattern's letters one by
    one without regard to case. *)
Theorem contains_finds_every_occurrence (c : option str) (pat : str) :
  cell_contains pat c = true <->
  exists s a m b,
    c = Some s /\ s = a ++ m ++ b
    /\ Forall2 (fun p x => ci_char p x = true) pat m.
Proof.
  destruct c as [s|]; simpl.
  - rewrite ci_contains_iff. split.
    + intros (a & m & b & E & F). exists s, a, m, b. auto.
    + intros (s' & a & m & b & E & E' & F). injection E as <-.
      exists a, m, b. auto.
  - split; [discriminate|]. intros (s & a & m & b & E & _). discriminate E.
Qed.

Lemma sre_lower_upper (c : char) : sre_lower (ascii_upper c) = sre_lower c.
Proof.
  unfold sre_lower, ascii_upper.
  destruct (N.leb_spec 97 c), (N.leb_spec c 122); simpl;
    try reflexivity.
  destruct (N.leb_spec 65 (c - 32)), (N.leb_spec (c - 32) 90); simpl;
    try lia.
  destruct (N.leb_spec 65 c), (N.leb_spec c 90); simpl; try lia.
  destruct (N.eqb_spec c 304); [lia|].
  destruct (N.eqb_spec c 8490); lia.
Qed.

Lemma sre_lower_lower (c : char) : sre_lower (ascii_lower c) = sre_lower c.
Proof.
  unfold ascii_lower.
  destruct ((65 <=? c) && (c <=? 90))%N eqn:E; [|reflexivity].
  unfold sre_lower. rewrite E.
  apply andb_true_iff in E as [E1 E2]. apply N.leb_le in E1, E2.
  replace (c + 32 <=? 90)%N with false by (symmetry; apply N.leb_gt; lia).
  replace (c + 32 =? 304)%N with false by (symmetry; apply N.eqb_neq; lia).
  replace (c + 32 =? 8490)%N with false by (symmetry; apply N.eqb_neq; lia).
  rewrite andb_false_r. reflexivity.
Qed.

Lemma ci_prefix_ext (f g : char -> char) (s pat : str) :
  (forall c, sre_lower (f c) = sre_lower c) ->
  (forall c, sre_lower (g c) = sre_lower c) ->
  ci_prefix (map f s) (map g pat) = ci_prefix s pat.
Proof.
  intros Hf Hg. revert s; induction pat as [|p pat IH]; intros s;
    [reflexivity|].
  destruct s as [|c s]; [reflexivity|].
  simpl. rewrite IH. unfold ci_char. rewrite Hf, Hg. reflexivity.
Qed.

Lemma ci_contains_ext (f g : char -> char) (s pat : str) :
  (forall c, sre_lower (f c) = sre_lower c) ->
  (forall c, sre_lower (g c) = sre_lower c) ->
  ci_contains (map f s) (map g pat) = ci_contains s pat.
Proof.
  intros Hf Hg. induction s as [|c s IH].
  - pose proof (@ci_prefix_ext f g [] pat Hf Hg) as E.
    simpl in *. rewrite E. reflexivity.
  - pose proof (@ci_prefix_ext f g (c :: s) pat Hf Hg) as E.
    rewrite (ci_contains_unfold (c :: s)), <- E, <- IH.
    apply ci_contains_unfold.
Qed.

(** X21.  Letter case plays no part in the three substring tests: putting
    the path, or the pattern, into ASCII upper or lower case does not
    change the answer. *)
Theorem contains_ignores_case (s pat : str) :
  ci_contains (map ascii_upper s) pat = ci_contains s pat
  /\ ci_contains (map ascii_lower s) pat = ci_contains s pat
  /\ ci_contains s (map ascii_upper pat) = ci_contains s pat
  /\ ci_contains s (map ascii_lower pat) = ci_contains s pat.
Proof.
  pose proof (fun c : char => eq_refl (sre_lower c)) as Hid.
  repeat split.
  - rewrite <- (map_id pat) at 1.
    apply ci_contains_ext; [apply sre_lower_upper|exact Hid].
  - rewrite <- (map_id pat) at 1.
    apply ci_contains_ext; [apply sre_lower_lower|exact Hid].
  - rewrite <- (map_id s) at 1.
    apply ci_contains_ext; [exact Hid|apply sre_lower_upper].
  - rewrite <- (map_id s) at 1.
    apply ci_contains_ext; [exact Hid|apply sre_lower_lower].
Qed.

Lemma ci_char_lower (c : char) : ci_char (ascii_lower c) c = true.
Proof.
  unfold ci_char. rewrite sre_lower_lower, N.eqb_refl. reflexivity.
Qed.

(** X22.  A pattern is found wherever it occurs in the path, in any
    mixture of upper and lower case, also inside a longer word or in a
    directory name. *)
Theorem pattern_anywhere_in_path_matches (pat a m b : str) :
  map ascii_lower m = map ascii_lower pat ->
  cell_contains pat (Some (a ++ m ++ b)) = true.
Proof.
  intros E. simpl.
  pose proof (fun c : char => eq_refl (sre_lower c)) as Hid.
  rewrite <- (@ci_contains_ext (fun c => c) ascii_lower (a ++ m ++ b) pat Hid
                sre_lower_lower).
  rewrite map_id, <- E. apply ci_contains_iff. exists a, m, b.
  split; [reflexivity|].
  clear E. induction m as [|c m IH]; simpl; constructor;
    [apply ci_char_lower|exact IH].
Qed.

Lemma pattern_anywhere_in_path_matches_witness :
  is_test (ex_df_row "src/laTEST/x.py" "Yes") = true.
Proof.
  apply (@pattern_anywhere_in_path_matches (lit "test") (lit "src/la")
           (lit "TEST") (lit "/x.py")).
  reflexivity.
Defined.

(** *** The suffix test *)

Lemma endswith_upper_suffix (stem suf suf' : str) :
  In suf source_suffixes -> In suf' source_suffixes ->
  endswith (stem ++ map ascii_upper suf) suf' = false.
Proof.
  intros H H'. unfold endswith. rewrite rev_app_distr.
  unfold source_suffixes in *. simpl in H, H'.
  repeat (destruct H as [<-|H]; [|]); try contradiction;
    repeat (destruct H' as [<-|H']; [|]); try contradiction;
    reflexivity.
Qed.

(** X23.  The source-code test, unlike the other three, minds the case:
    a path that ends in one of the six extensions written in upper case
    (".PY", ".CPP", ...) is not counted as source code. *)
Theorem upper_case_extension_is_not_source (stem suf : str) (r : DfRow) :
  In suf source_suffixes ->
  df_new_file_path r = Some (stem ++ map ascii_upper suf) ->
  is_source r = false.
Proof.
  intros H E. unfold is_source. rewrite E. unfold cell_endswith.
  destruct (existsb (endswith (stem ++ map ascii_upper suf)) source_suffixes)
    eqn:X; [|reflexivity].
  apply existsb_exists in X as (suf' & H' & X).
  rewrite (endswith_upper_suffix stem H H') in X. discriminate X.
Qed.

Lemma upper_case_extension_is_not_source_witness :
  is_source (ex_df_row "MAIN.PY" "Yes") = false.
Proof.
  apply (@upper_case_extension_is_not_source (lit "MAIN") (lit ".py")).
  - left. reflexivity.
  - reflexivity.
Defined.

(** *** When the chart is drawn *)

Lemma nonzero_filter_existsb {A} (f : A -> bool) (l : list A) :
  negb (List.length (filter f l) =? 0) = existsb f l.
Proof.
  induction l as [|x l IH]; [reflexivity|].
  simpl. destruct (f x); [reflexivity|exact IH].
Qed.

Lemma any_counts_iff_row (df : list DfRow) :
  any_counts df = true <->
  exists r, In r df /\ cell_is (lit "Yes") (df_Discrepancy r) = true
            /\ in_some_category r = true.
Proof.
  unfold any_counts, counts, categories. cbn [map existsb fst snd].
  rewrite !nonzero_filter_existsb, orb_false_r.
  rewrite !orb_true_iff, !existsb_exists. unfold in_some_category.
  split.
  - intros H.
    assert (exists r, In r (mismatches df)
                      /\ (is_source r || is_test r || is_readme r
                          || is_license r) = true) as (r & Hr & Hc).
    { destruct H as [(r & Hr & Hc)|[(r & Hr & Hc)|[(r & Hr & Hc)|(r & Hr & Hc)]]];
        exists r; (split; [exact Hr|]); rewrite Hc;
        rewrite ?orb_true_r; reflexivity. }
    apply filter_In in Hr as [Hr Hy]. exists r. auto.
  - intros (r & Hr & Hy & Hc).
    assert (Hm : In r (mismatches df)) by (apply filter_In; auto).
    rewrite !orb_true_iff in Hc.
    destruct Hc as [[[Hc|Hc]|Hc]|Hc]; eauto 6.
Qed.

(** X24.  The chart is saved exactly when some discrepant row passes the
    test of at least one category.  Otherwise the run ends with the line
    that says no mismatches were found, which is therefore also printed
    when there are discrepant rows but none of them falls into a
    category. *)
Theorem chart_iff_a_categorised_mismatch (df : list DfRow) :
  (In (plt_savefig chart_path) (report df) <->
   exists r, In r df /\ cell_is (lit "Yes") (df_Discrepancy r) = true
             /\ in_some_category r = true)
  /\ (last (report df) plt_show = print skipped_message <->
      ~ exists r, In r df /\ cell_is (lit "Yes") (df_Discrepancy r) = true
                  /\ in_some_category r = true).
Proof.
  rewrite <- any_counts_iff_row. unfold report.
  destruct (any_counts df) eqn:A.
  - split.
    + split; [reflexivity|]. intros _.
      apply in_or_app; right. apply in_or_app; right.
      do 5 right. left. reflexivity.
    + split; [|intros H; exfalso; apply H; reflexivity].
      rewrite app_assoc.
      change [?a; ?b; ?c; ?d; ?e; ?f; ?g; ?h]
        with ([a; b; c; d; e; f; g] ++ [h]).
      rewrite app_assoc, last_last. intros E. vm_compute in E.
      discriminate E.
  - split.
    + split; [|discriminate]. intros H.
      apply in_app_or in H as [H|H].
      * simpl in H. destruct H as [H|[H|[]]]; discriminate H.
      * apply in_app_or in H as [H|H].
        -- apply count_prints_In in H as (cn & _ & H). discriminate H.
        -- simpl in H. destruct H as [H|[]]. discriminate H.
    + split; [intros _; discriminate|]. intros _.
      rewrite app_assoc. apply last_last.
Qed.
